(** * page2tei export splitter: a model of [splitter_14_improved.py]

  The script cuts a page range out of a TEI transcription, wraps it in a
  new TEI header, runs an XSLT transform and post-processes the bytes.
  This file embeds the script function by function and states the
  properties of its behaviour as theorems.

  Conventions of the embedding
  - Python [int] is [Z]; Python [str] is [string]; Python [bytes] is
    [list byte].
  - An lxml element is a node of a rose tree.  lxml's [append] MOVES a
    node, so nodes of the parsed document carry an identity ([uid]) and
    the script's handles are resolved against the live trees.
  - The file system, the console and exceptions are explicit: a command
    is a function from a [world] to a [result] and a new [world]. *)

From Stdlib Require Import ZArith Strings.String Strings.Ascii Strings.Byte.
From Stdlib Require Import Lia DecimalString DecimalZ DecimalPos.
From stdpp Require Import base list strings gmap.

Open Scope Z_scope.
Set Warnings "-register-all".

(* ===================================================================== *)
(** * Python primitives used by the script                                *)
(* ===================================================================== *)

Module Py.

(** [str(n)] for an [int]: decimal digits, a leading [-] when negative. *)
Definition str (n : Z) : string := NilZero.string_of_int (Z.to_int n).

(** [range(start, stop)] with the default step 1. *)
Definition range (start stop : Z) : list Z := seqZ start (stop - start).

(** [digits.rjust(w, '0')] *)
Definition zfill (w : nat) (digits : string) : string :=
  String.concat EmptyString (replicate (w - String.length digits)%nat "0"%string)
    +:+ digits.

(** [format(n, '03d')]: minimum width 3, padded with zeros after the sign. *)
Definition format_03d (n : Z) : string :=
  if n <? 0 then "-" +:+ zfill 2 (str (- n)) else zfill 3 (str n).

(** [b.startswith(p)] on bytes. *)
Fixpoint startswith (p s : list byte) : bool :=
  match p, s with
  | [], _ => true
  | _ :: _, [] => false
  | x :: p', y :: s' => Byte.eqb x y && startswith p' s'
  end.

(** One left-to-right scan of [bytes.replace] for a non-empty [old]:
    [skip] counts the bytes of a match that are still to be passed over. *)
Fixpoint replace_scan (old new : list byte) (skip : nat) (s : list byte)
  : list byte :=
  match s with
  | [] => []
  | c :: s' =>
      match skip with
      | S k => replace_scan old new k s'
      | O =>
          if startswith old s
          then new ++ replace_scan old new (length old - 1)%nat s'
          else c :: replace_scan old new O s'
      end
  end.

(** [s.replace(old, new)]: every non-overlapping occurrence, leftmost
    first.  For an empty [old] Python puts [new] before every byte and at
    the end. *)
Definition replace (s old new : list byte) : list byte :=
  match old with
  | [] => new ++ (s ≫= λ c, c :: new)
  | _ :: _ => replace_scan old new O s
  end.

(** [p in s] on bytes. *)
Fixpoint contains_bytes (s p : list byte) : bool :=
  startswith p s
  || match s with
     | [] => false
     | _ :: s' => contains_bytes s' p
     end.

(** [c.isdigit()] for an ASCII character. *)
Definition is_digit (c : ascii) : bool :=
  (48 <=? nat_of_ascii c)%nat && (nat_of_ascii c <=? 57)%nat.

(** [c in s] for a character. *)
Fixpoint has_char (c : ascii) (s : string) : bool :=
  match s with
  | EmptyString => false
  | String x s' => Ascii.eqb x c || has_char c s'
  end.

(** A string that ends in a decimal digit. *)
Definition ends_in_digit (s : string) : Prop :=
  ∃ g d, s = g +:+ String d EmptyString ∧ is_digit d = true.

(** XPath 1.0 [contains(s, needle)] on strings. *)
Fixpoint contains (s needle : string) : bool :=
  String.prefix needle s
  || match s with
     | EmptyString => false
     | String _ s' => contains s' needle
     end.

End Py.

(* ===================================================================== *)
(** * lxml element trees                                                  *)
(* ===================================================================== *)

Module Etree.

(** Identity of a node.  The nodes of a parsed document are numbered by
    the parser in document order; the script looks up and moves only
    those.  Elements the script builds itself are never looked up again,
    so they share the mark [Built]. *)
Inductive ident : Type :=
| Parsed (k : nat)
| Built.

#[global] Instance ident_eq_dec : EqDecision ident.
Proof. solve_decision. Defined.

(** An element: tag in Clark notation ([{namespace}local]), attributes in
    document order, the text before the first child, the children.
    Tails, comments and processing instructions are not modelled. *)
Inductive element : Type :=
| Element (uid : ident) (tag : string) (attrib : list (string * string))
          (text : option string) (children : list element).

Definition uid (e : element) : ident :=
  match e with Element u _ _ _ _ => u end.
Definition tag (e : element) : string :=
  match e with Element _ t _ _ _ => t end.
Definition attrib (e : element) : list (string * string) :=
  match e with Element _ _ a _ _ => a end.
Definition text (e : element) : option string :=
  match e with Element _ _ _ x _ => x end.
Definition children (e : element) : list element :=
  match e with Element _ _ _ _ cs => cs end.

(** What a node is by itself, apart from its position. *)
Definition label (e : element) : ident * string * list (string * string)
                                 * option string :=
  (uid e, tag e, attrib e, text e).

(** [e.get(name)] *)
Fixpoint get_attr (a : list (string * string)) (name : string)
  : option string :=
  match a with
  | [] => None
  | (k, v) :: a' => if String.eqb k name then Some v else get_attr a' name
  end.
Definition get (e : element) (name : string) : option string :=
  get_attr (attrib e) name.

(** [e.iter()]: the element and its descendants in document order. *)
Fixpoint iter (e : element) : list element :=
  match e with
  | Element _ _ _ _ cs => e :: (cs ≫= iter)
  end.

(** The nodes of a forest, and the proper descendants of an element. *)
Definition nodes (l : list element) : list element := l ≫= iter.
Definition descendants (e : element) : list element := nodes (children e).

(** Detaching the node numbered [i] from wherever it hangs below [e]. *)
Fixpoint prune (i : nat) (e : element) : element :=
  match e with
  | Element u t a x cs =>
      Element u t a x (filter (λ c, uid c ≠ Parsed i) (prune i <$> cs))
  end.
Definition remove_node (i : nat) (l : list element) : list element :=
  filter (λ c, uid c ≠ Parsed i) (prune i <$> l).

(** The live node numbered [i] of a forest. *)
Definition find_node (i : nat) (l : list element) : option element :=
  head (filter (λ c, uid c = Parsed i) (nodes l)).

(** The document as the file holds it: no identities yet. *)
Inductive xml : Type :=
| Xml (tag : string) (attrib : list (string * string))
      (text : option string) (children : list xml).

(** The parser numbers the nodes in document order, from [k] on. *)
Section NumberList.
Variable number1 : xml -> nat -> element * nat.
Fixpoint number_list (l : list xml) (k : nat) : list element * nat :=
  match l with
  | [] => ([], k)
  | c :: l' =>
      let '(c', k1) := number1 c k in
      let '(l'', k2) := number_list l' k1 in
      (c' :: l'', k2)
  end.
End NumberList.

Fixpoint number (t : xml) (k : nat) : element * nat :=
  match t with
  | Xml tg a x cs =>
      let '(cs', k') := number_list number cs (S k) in
      (Element (Parsed k) tg a x cs', k')
  end.

(** A forest whose nodes carry the numbers [k], ..., [k' - 1] in document
    order. *)
Definition numbered (es : list element) (k k' : nat) : Prop :=
  (k ≤ k')%nat ∧ uid <$> nodes es = Parsed <$> seq k (k' - k).

(** [tree.getroot()] of a freshly parsed document. *)
Definition getroot (t : xml) : element := fst (number t O).

End Etree.

(* ===================================================================== *)
(** * The trees the script works on                                       *)
(* ===================================================================== *)

Module Trees.
Import Etree.

(** While the script assembles the output it holds three handles: [root]
    (the parsed source), [facsimile] and [div] (containers of the new
    document).  Appending to a container takes the node out of whichever
    of the three it hangs in. *)
Record trees : Type := Build {
  root : element;
  facsimile : list element;
  div : list element
}.

Inductive container : Type := Facsimile | Div.

(** Every node that hangs in one of the three, without [root] itself. *)
Definition forest (st : trees) : list element :=
  children (root st) ++ facsimile st ++ div st.

Definition live (i : nat) (st : trees) : option element :=
  find_node i (forest st).

Definition detach (i : nat) (st : trees) : trees :=
  Build (prune i (root st)) (remove_node i (facsimile st))
        (remove_node i (div st)).

Definition contents (c : container) (st : trees) : list element :=
  match c with Facsimile => facsimile st | Div => div st end.

Definition attach (c : container) (x : element) (st : trees) : trees :=
  match c with
  | Facsimile => Build (root st) (facsimile st ++ [x]) (div st)
  | Div => Build (root st) (facsimile st) (div st ++ [x])
  end.

(** [container.append(x)]: the handle [x] stands for the live node with
    its number; the node leaves its parent and becomes the last child of
    the container.  An element that hangs nowhere is simply added. *)
Definition append (c : container) (x : element) (st : trees) : trees :=
  match uid x with
  | Parsed i =>
      match live i st with
      | Some y => attach c y (detach i st)
      | None => attach c x st
      end
  | Built => attach c x st
  end.

(** The numbers of the parsed nodes among [l], and the trees in which no
    number occurs twice: the state of a parsed document under moves. *)
Definition index (e : element) : option nat :=
  match uid e with Parsed k => Some k | Built => None end.
Definition keys (l : list element) : list nat := omap index l.
Definition wf (st : trees) : Prop := NoDup (keys (nodes (forest st))).

(** The labels determine the numbers. *)
Definition label_index
    (lb : ident * string * list (string * string) * option string)
  : option nat :=
  match lb.1.1.1 with Parsed k => Some k | Built => None end.
Definition label_tag
    (lb : ident * string * list (string * string) * option string)
  : string := lb.1.1.2.

(** The state of the script between two appends: no number twice, and
    everything below [root] comes from the parser. *)
Definition inv (st : trees) : Prop :=
  wf st
  ∧ Forall (λ lb, is_Some (label_index lb))
           (label <$> descendants (root st)).

(** Elements the script built and never filled have no children. *)
Definition leaves_built (l : list element) : Prop :=
  Forall (λ e, uid e = Built → children e = []) l.

(** [for x in xs: container.append(x)] *)
Definition append_all (c : container) (xs : list element) (st : trees)
  : trees :=
  foldl (λ s x, append c x s) st xs.

End Trees.

(* ===================================================================== *)
(** * The script                                                          *)
(* ===================================================================== *)

Module Splitter.
Import Py Etree Trees.

Definition bytes : Type := list byte.

(** ** Names and queries *)

Definition tei (name : string) : string :=
  "{http://www.tei-c.org/ns/1.0}" +:+ name.
Definition xml_id : string := "{http://www.w3.org/XML/1998/namespace}id".

(** [.//tei:surface[@xml:id='facs_{n}']] *)
Definition is_surface (n : Z) (e : element) : Prop :=
  tag e = tei "surface" ∧ get e xml_id = Some ("facs_" +:+ str n).

(** [.//tei:table[@facs='#facs_{n}_t1']] *)
Definition is_table (n : Z) (e : element) : Prop :=
  tag e = tei "table" ∧ get e "facs" = Some ("#facs_" +:+ str n +:+ "_t1").

(** [.//tei:ab[contains(@facs, '#facs_{n}_')]]: a missing attribute counts
    as the empty string. *)
Definition is_ab (n : Z) (e : element) : Prop :=
  tag e = tei "ab"
  ∧ contains (default EmptyString (get e "facs")) ("#facs_" +:+ str n +:+ "_")
    = true.

#[global] Instance is_surface_dec n e : Decision (is_surface n e).
Proof. unfold is_surface. apply _. Defined.
#[global] Instance is_table_dec n e : Decision (is_table n e).
Proof. unfold is_table. apply _. Defined.
#[global] Instance is_ab_dec n e : Decision (is_ab n e).
Proof. unfold is_ab. apply _. Defined.

(** [root.findall(path)] and [root.xpath(path)] with a path [.//...]: the
    matching proper descendants in document order. *)
Definition findall (P : element → Prop) `{∀ e, Decision (P e)}
    (root : element) : list element :=
  filter P (descendants root).

(** ** [create_tei_header] *)

Definition SubElement (tg : string) (a : list (string * string))
    (x : option string) (cs : list element) : element :=
  Element Built tg a x cs.

Definition note_text : string :=
  "This manuscript, compiled by Philippe Gumpenhuber, contains a repertoire of all the spectacles "
  +:+ "performed in Vienna during the years 1758-1759, and 1761-1763.".

Definition title_text (year_of_volume : string) : string :=
  "Repertoire de tous les Spectacles " +:+ year_of_volume.

Definition tei_header (year_of_volume publisher_text pub_place_text
    title_series_text idno_external_text : string) : element :=
  SubElement "teiHeader" [] None [
    SubElement "fileDesc" [] None [
      SubElement "titleStmt" [] None [
        SubElement "title" [("type", "main")]
          (Some (title_text year_of_volume)) [] ];
      SubElement "publicationStmt" [] None [
        SubElement "publisher" [] (Some publisher_text) [];
        SubElement "pubPlace" [] (Some pub_place_text) [];
        SubElement "date" [] (Some year_of_volume) [] ];
      SubElement "seriesStmt" [] None [
        SubElement "title" [] (Some title_series_text) [] ];
      SubElement "sourceDesc" [] None [
        SubElement "bibl" [] None [
          SubElement "title" [("type", "main")]
            (Some (title_text year_of_volume)) [];
          SubElement "idno" [("type", "external")]
            (Some idno_external_text) [];
          SubElement "note" [] (Some note_text) [] ] ] ] ]%string.

Definition create_tei_header (year_of_volume publisher_text pub_place_text
    title_series_text idno_external_text : string) : element :=
  Element Built (tei "TEI") [] None
    [tei_header year_of_volume publisher_text pub_place_text
       title_series_text idno_external_text].

(** ** Selection *)

Definition extract_surface_elements (root : element)
    (facs_start_range : list Z) : list element :=
  facs_start_range ≫= λ facs_start, findall (is_surface facs_start) root.

Definition extract_table_elements (root : element)
    (facs_start_range : list Z) : list element :=
  facs_start_range ≫= λ facs_start, findall (is_table facs_start) root.

(** ** Assembly: the body of [__main__] between parsing and serialising *)

(** The page break of page [facs_start]. *)
Definition pb (facs_start : Z) : element :=
  SubElement "pb"
    [("facs", "#facs_" +:+ str facs_start);
     ("n", str facs_start);
     (xml_id, "img_00" +:+ str facs_start)]%string
    None [].

(** One turn of the page loop. *)
Definition page_step (st : trees) (facs_start : Z) : trees :=
  let st := attach Div (pb facs_start) st in
  let current_table_elements := findall (is_table facs_start) (root st) in
  match current_table_elements with
  | _ :: _ => append_all Div current_table_elements st
  | [] =>
      let text_elements := findall (is_ab facs_start) (root st) in
      append_all Div text_elements st
  end.

(** What one turn appends after the page break: the tables if there are
    any, else the text blocks. *)
Definition page_content (facs_start : Z) (root : element) : list element :=
  match findall (is_table facs_start) root with
  | [] => findall (is_ab facs_start) root
  | ts => ts
  end.

Definition page_loop (st : trees) (facs_start_range : list Z) : trees :=
  foldl page_step st facs_start_range.

(** The trees after the facsimile loop and the page loop.  The script also
    computes [table_elements = extract_table_elements(...)] before the
    loops and never uses it. *)
Definition assemble (root : element) (facs_start_range : list Z) : trees :=
  let surface_elements := extract_surface_elements root facs_start_range in
  let st := append_all Facsimile surface_elements (Build root [] []) in
  page_loop st facs_start_range.

(** [tei_root] once both loops are done. *)
Definition tei_root (header : element) (st : trees) : element :=
  Element (uid header) (tag header) (attrib header) (text header)
    (children header ++
     [SubElement "facsimile" [] None (facsimile st);
      SubElement "text" [] None
        [SubElement "body" [] None
           [SubElement "div" [] None (div st)]]]).

(** ** File names *)

Definition range_str (start stop : Z) : string :=
  if 1 <? stop - start
  then str start +:+ "-" +:+ str (stop - 1)
  else str start.

Definition output_file_path (year_of_volume : string) (start stop : Z)
  : string :=
  "output/" +:+ year_of_volume +:+ "_" +:+ range_str start stop
  +:+ "_before.xml".

Definition formatted_range_str (start stop : Z) : string :=
  if 1 <? stop - start
  then format_03d start +:+ "-" +:+ format_03d (stop - 1)
  else format_03d start.

Definition transformed_output_path (year_of_volume : string)
    (start stop : Z) : string :=
  "output/" +:+ year_of_volume +:+ "_" +:+ formatted_range_str start stop
  +:+ ".xml".

(** ** The textual fix-up of [clean_transformed_xml] *)

Definition LF : byte := x0a.

(** [b'>\n<lb '], [b'\n<lb'] and [b'<lb'] *)
Definition gt_lf_lb_sp : bytes := [">"; LF; "<"; "l"; "b"; " "]%byte.
Definition lf_lb : bytes := [LF; "<"; "l"; "b"]%byte.
Definition lb : bytes := ["<"; "l"; "b"]%byte.

(** [s.replace(b'>\n<lb ', b'>\n<lb ').replace(b'\n<lb', b'<lb')] *)
Definition lb_fixup (s : bytes) : bytes :=
  replace (replace s gt_lf_lb_sp gt_lf_lb_sp) lf_lb lb.

(** What the page loop may put into [div] for the pages [pages] of a
    source [R]: a page break, or a node of [R] that one of the two content
    queries selects. *)
Definition selected_from (R : element) (pages : list Z)
    (lb : ident * string * list (string * string) * option string) : Prop :=
  (∃ n, n ∈ pages ∧ lb = label (pb n))
  ∨ (∃ x n, x ∈ descendants R ∧ n ∈ pages ∧ label x = lb
            ∧ (is_table n x ∨ is_ab n x)).

(** [b'\n\n<lb'] *)
Definition lf_lf_lb : bytes := LF :: lf_lb.

(** The fix-up in the words of its description: a line break that stands
    immediately before [<lb] is dropped, every other byte is kept. *)
Fixpoint drop_lf_before_lb (s : bytes) : bytes :=
  match s with
  | [] => []
  | c :: s' =>
      if Byte.eqb c LF && startswith lb s'
      then drop_lf_before_lb s'
      else c :: drop_lf_before_lb s'
  end.

End Splitter.

(* ===================================================================== *)
(** * Files, console, exceptions                                          *)
(* ===================================================================== *)

Module Sys.
Import Etree.

(** The exceptions the run can meet.  [OSError] is Python's [IOError]. *)
Inductive exn : Type :=
| OSError (strerror : string)
| XMLSyntaxError
| XSLTParseError
| XSLTApplyError.

(** A command returns a value, raises, or leaves through [exit()]. *)
Inductive result (A : Type) : Type :=
| Value (a : A)
| Raised (e : exn)
| Exited.
Arguments Value {A} a.
Arguments Raised {A} e.
Arguments Exited {A}.

(** The files with their contents, the paths the process may not read,
    write or unlink, and what has been printed so far. *)
Record world : Type := World {
  files : gmap string (list byte);
  unreadable : gset string;
  unwritable : gset string;
  undeletable : gset string;
  stdout : list string
}.

Definition cmd (A : Type) : Type := world → result A * world.

#[global] Instance cmd_ret : MRet cmd := λ A a w, (Value a, w).
#[global] Instance cmd_bind : MBind cmd := λ A B f m w,
  match m w with
  | (Value a, w') => f a w'
  | (Raised e, w') => (Raised e, w')
  | (Exited, w') => (Exited, w')
  end.

Definition raise {A} (e : exn) : cmd A := λ w, (Raised e, w).
Definition exit {A} : cmd A := λ w, (Exited, w).

(** [try: m  except IOError as e: h e] *)
Definition try_except_IOError {A} (m : cmd A) (h : string → cmd A) : cmd A :=
  λ w, match m w with
       | (Raised (OSError e), w') => h e w'
       | r => r
       end.

Definition print (line : string) : cmd unit := λ w,
  (Value tt, World (files w) (unreadable w) (unwritable w) (undeletable w)
                   (stdout w ++ [line])).

Definition with_files (f : gmap string (list byte)) (w : world) : world :=
  World f (unreadable w) (unwritable w) (undeletable w) (stdout w).

(** [w'] differs from [w] at most in the files at the paths [ps] and in
    lines added to the console. *)
Definition extends (ps : list string) (w w' : world) : Prop :=
  unreadable w' = unreadable w
  ∧ unwritable w' = unwritable w
  ∧ undeletable w' = undeletable w
  ∧ (∀ p, p ∉ ps → files w' !! p = files w !! p)
  ∧ stdout w `prefix_of` stdout w'.

(** A command all of whose runs stay within the paths [ps]. *)
Definition within {A} (ps : list string) (m : cmd A) : Prop :=
  ∀ w r w', m w = (r, w') → extends ps w w'.

(** What the platform and lxml contribute: the text of an [OSError] on a
    path, the XML parser ([None]: not well-formed), the serialiser for a
    declared encoding name (pretty-printed, with declaration) and the XSLT
    compiler ([None]: not a stylesheet) whose transforms may fail. *)
Record platform : Type := Platform {
  strerror : string → string;
  fromstring : list byte → option xml;
  tostring : string → element → list byte;
  XSLT : element → option (element → option element)
}.

Section Commands.
Variable os : platform.

Definition read_file (path : string) : cmd (list byte) := λ w,
  match files w !! path with
  | Some b =>
      if decide (path ∈ unreadable w)
      then (Raised (OSError (strerror os path)), w)
      else (Value b, w)
  | None => (Raised (OSError (strerror os path)), w)
  end.

(** [with open(path, 'w' or 'wb') as f: f.write(b)] *)
Definition write_file (path : string) (b : list byte) : cmd unit := λ w,
  if decide (path ∈ unwritable w)
  then (Raised (OSError (strerror os path)), w)
  else (Value tt, with_files (<[path := b]> (files w)) w).

(** [os.path.exists(path)] *)
Definition os_path_exists (path : string) : cmd bool := λ w,
  (Value (bool_decide (is_Some (files w !! path))), w).

(** [os.remove(path)] *)
Definition os_remove (path : string) : cmd unit := λ w,
  match files w !! path with
  | Some _ =>
      if decide (path ∈ undeletable w)
      then (Raised (OSError (strerror os path)), w)
      else (Value tt, with_files (delete path (files w)) w)
  | None => (Raised (OSError (strerror os path)), w)
  end.

(** [etree.parse(path)], as the root of the tree it returns. *)
Definition etree_parse (path : string) : cmd element :=
  b ← read_file path;
  match fromstring os b with
  | Some t => mret (getroot t)
  | None => raise XMLSyntaxError
  end.

End Commands.
End Sys.

(* ===================================================================== *)
(** * The functions that touch the world, and [__main__]                  *)
(* ===================================================================== *)

Module Main.
Import Py Etree Trees Splitter Sys.

(** The values [__main__] fixes at its top. *)
Record config : Type := Config {
  file_path : string;
  year_of_volume : string;
  pub_place_text : string;
  publisher_text : string;
  title_series_text : string;
  idno_external_text : string;
  facs_start : Z;
  facs_stop : Z;
  xslt_path : string
}.

(** The double-quote character of a Python literal. *)
Definition dquote : string := String (ascii_of_nat 34) EmptyString.

Definition script_config : config := {|
  file_path := "export_files/file.xml";
  year_of_volume := "1758";
  pub_place_text := "Cambridge, MA";
  publisher_text := "Houghton Library, Harvard University";
  title_series_text :=
    "Austrian Science Fund project " +:+ dquote +:+ "GuDiE" +:+ dquote
    +:+ " (FWF-Grant-DOI: 10.55776/P36729)";
  idno_external_text :=
    "https://gams-staging.uni-graz.at/gamsdev/dittmann/iiif/manifests/MS_Thr_248-0.json";
  facs_start := 81;
  facs_stop := 89;
  xslt_path := "xslt/test-stylesheet.xsl"
|}.

(** The two lines [save_xml_to_file] can print. *)
Definition warning_line (path : string) : string :=
  "Warning: " +:+ path +:+ " already exists. It will be overwritten.".
Definition saved_line (path : string) : string :=
  "The original XML output has been saved to " +:+ path.

Section Run.
Variable os : platform.

Definition parse_xml (file_path : string) : cmd (option element) :=
  try_except_IOError
    (tree ← etree_parse os file_path; mret (Some tree))
    (λ e, print ("Error reading " +:+ file_path +:+ ": " +:+ e);;
          mret None).

Definition save_xml_to_file (output_file_path xml_string : string)
  : cmd unit :=
  present ← os_path_exists output_file_path;
  (if present : bool
   then print ("Warning: " +:+ output_file_path
               +:+ " already exists. It will be overwritten.")
   else mret tt);;
  write_file os output_file_path (list_byte_of_string xml_string);;
  print ("The original XML output has been saved to " +:+ output_file_path).

Definition transform_xml (xslt_path : string) (xml_tree : element)
  : cmd element :=
  xslt_tree ← etree_parse os xslt_path;
  match XSLT os xslt_tree with
  | None => raise XSLTParseError
  | Some transform =>
      match transform xml_tree with
      | Some transformed => mret transformed
      | None => raise XSLTApplyError
      end
  end.

Definition clean_transformed_xml (transformed_tree : element) : list byte :=
  lb_fixup (tostring os "UTF-8" transformed_tree).

(** The new document for a parsed [root]. *)
Definition build (c : config) (root : element) : element :=
  tei_root
    (create_tei_header (year_of_volume c) (publisher_text c)
       (pub_place_text c) (title_series_text c) (idno_external_text c))
    (assemble root (range (facs_start c) (facs_stop c))).

Definition main (c : config) : cmd unit :=
  root ← parse_xml (file_path c);
  match root with
  | None => exit
  | Some root =>
      let tei_bytes := tostring os "utf-8" (build c root) in
      let tei_str := string_of_list_byte tei_bytes in
      let output_file_path :=
        output_file_path (year_of_volume c) (facs_start c) (facs_stop c) in
      save_xml_to_file output_file_path tei_str;;
      original_tree ← etree_parse os output_file_path;
      transformed_tree ← transform_xml (xslt_path c) original_tree;
      let transformed_output_path :=
        transformed_output_path (year_of_volume c) (facs_start c)
          (facs_stop c) in
      let transformed_xml_string := clean_transformed_xml transformed_tree in
      write_file os transformed_output_path transformed_xml_string;;
      print ("The transformed XML has been saved to "
             +:+ transformed_output_path);;
      os_remove os output_file_path
  end.

(** The world after [parse_xml] has printed its message about [path]. *)
Definition reported (path : string) (w : world) : world :=
  World (files w) (unreadable w) (unwritable w) (undeletable w)
    (stdout w ++ ["Error reading " +:+ path +:+ ": " +:+ strerror os path]).

(** The statements of [__main__] from serialising the new document [doc]
    to the last [print]: everything between the page loop and the
    deletion of the intermediate file. *)
Definition write_outputs (c : config) (doc : element) : cmd unit :=
  let tei_bytes := tostring os "utf-8" doc in
  let tei_str := string_of_list_byte tei_bytes in
  let output_file_path :=
    output_file_path (year_of_volume c) (facs_start c) (facs_stop c) in
  save_xml_to_file output_file_path tei_str;;
  original_tree ← etree_parse os output_file_path;
  transformed_tree ← transform_xml (xslt_path c) original_tree;
  let transformed_output_path :=
    transformed_output_path (year_of_volume c) (facs_start c)
      (facs_stop c) in
  let transformed_xml_string := clean_transformed_xml transformed_tree in
  write_file os transformed_output_path transformed_xml_string;;
  print ("The transformed XML has been saved to "
         +:+ transformed_output_path).

End Run.
End Main.

(* ===================================================================== *)
(** * Small inputs on which the model is run                              *)
(* ===================================================================== *)

Module Examples.
Import Py Etree Trees Splitter Sys Main.

Definition tei_el (name : string) (a : list (string * string))
    (cs : list xml) : xml :=
  Xml (tei name) a None cs.

(** A text block of page 81 that holds the table of page 82, followed by a
    text block of page 82. *)
Definition nested_table : xml :=
  tei_el "TEI" [] [
    tei_el "text" [] [
      tei_el "body" [] [
        tei_el "ab" [("facs", "#facs_81_1")] [
          tei_el "table" [("facs", "#facs_82_t1")] [] ];
        tei_el "ab" [("facs", "#facs_82_1")] [] ] ] ]%string.

(** Surfaces 81 to 83, text blocks for 81 and 83, a table for 82. *)
Definition three_pages : xml :=
  tei_el "TEI" [] [
    tei_el "facsimile" [] [
      tei_el "surface" [(xml_id, "facs_81")] [];
      tei_el "surface" [(xml_id, "facs_82")] [];
      tei_el "surface" [(xml_id, "facs_83")] [] ];
    tei_el "text" [] [
      tei_el "body" [] [
        tei_el "ab" [("facs", "#facs_81_1")] [];
        tei_el "table" [("facs", "#facs_82_t1")] [];
        tei_el "ab" [("facs", "#facs_83_1")] [] ] ] ]%string.

(** A platform that knows three files by their bytes: the export, the
    intermediate document and the stylesheet.  Its serialiser writes the
    same short document whatever the tree, its only stylesheet is the
    identity. *)
Definition export_bytes : list byte := list_byte_of_string "<TEI>export</TEI>".
Definition document_bytes : list byte := list_byte_of_string "<TEI>new</TEI>".
Definition stylesheet_bytes : list byte :=
  list_byte_of_string "<xsl:stylesheet/>".

Definition same_bytes (b1 b2 : list byte) : bool :=
  String.eqb (string_of_list_byte b1) (string_of_list_byte b2).

Definition small_platform : platform := {|
  strerror := λ path, "[Errno] " +:+ path;
  fromstring := λ b,
    if same_bytes b export_bytes then Some three_pages
    else if same_bytes b document_bytes then Some (tei_el "TEI" [] [])
    else if same_bytes b stylesheet_bytes
         then Some (Xml "stylesheet" [] None [])
    else None;
  tostring := λ _ _, document_bytes;
  XSLT := λ sheet,
    if String.eqb (tag sheet) "stylesheet" then Some (λ t, Some t) else None
|}.

Definition world_of (fs : list (string * list byte)) (locked : list string)
  : world :=
  World (list_to_map fs) ∅ ∅ (list_to_set locked) [].

Definition intermediate_path : string := "output/1758_81-88_before.xml".
Definition final_path : string := "output/1758_081-088.xml".

(** The export and the stylesheet are there, nothing else. *)
Definition fresh_world : world :=
  world_of [("export_files/file.xml", export_bytes);
            ("xslt/test-stylesheet.xsl", stylesheet_bytes)]%string [].

(** Both output files exist already. *)
Definition used_world : world :=
  world_of [("export_files/file.xml", export_bytes);
            ("xslt/test-stylesheet.xsl", stylesheet_bytes);
            (intermediate_path, list_byte_of_string "old intermediate");
            (final_path, list_byte_of_string "old final")]%string [].

(** The intermediate file cannot be unlinked. *)
Definition locked_world : world :=
  world_of [("export_files/file.xml", export_bytes);
            ("xslt/test-stylesheet.xsl", stylesheet_bytes);
            (intermediate_path, list_byte_of_string "old intermediate")]%string
           [intermediate_path].

(** The export is not well-formed. *)
Definition broken_world : world :=
  world_of [("export_files/file.xml", list_byte_of_string "<TEI>")]%string [].

(** The configuration of the script with the empty range [81, 81). *)
Definition empty_config : config := {|
  file_path := file_path script_config;
  year_of_volume := year_of_volume script_config;
  pub_place_text := pub_place_text script_config;
  publisher_text := publisher_text script_config;
  title_series_text := title_series_text script_config;
  idno_external_text := idno_external_text script_config;
  facs_start := 81;
  facs_stop := 81;
  xslt_path := xslt_path script_config
|}.

(** The world once the output stage of the script has run in
    [locked_world]. *)
Definition locked_world_written : world :=
  (write_outputs small_platform script_config
     (build script_config (getroot three_pages)) locked_world).2.

(** The intermediate path exists and cannot be opened for writing. *)
Definition readonly_world : world :=
  World (files used_world) ∅ (list_to_set [intermediate_path]) ∅ [].

(** The export is there, the stylesheet is not. *)
Definition no_stylesheet_world : world :=
  world_of [("export_files/file.xml", export_bytes)]%string [].

(** The worlds after the whole script, after its output stage and after
    [save_xml_to_file] alone. *)
Definition used_world_after : world :=
  (main small_platform script_config used_world).2.
Definition saved_in (w : world) : world :=
  (save_xml_to_file small_platform intermediate_path
     (string_of_list_byte
        (tostring small_platform "utf-8"
           (build script_config (getroot three_pages)))) w).2.

(** A text block of page 81 with one zone. *)
Definition block_81 : element :=
  Element (Parsed 0) (tei "ab") [("facs", "#facs_81_1")]%string None [].

End Examples.

(* ===================================================================== *)
(** * Facts about trees, moves and the two loops                          *)
(* ===================================================================== *)

Module TreeFacts.
Import Py Etree Trees Splitter.
#[local] Open Scope nat_scope.

Lemma iter_unfold e : iter e = e :: nodes (children e).
Proof. by destruct e. Qed.

Lemma nodes_cons c l : nodes (c :: l) = c :: nodes (children c) ++ nodes l.
Proof. unfold nodes. rewrite bind_cons, iter_unfold. done. Qed.

Lemma nodes_app l1 l2 : nodes (l1 ++ l2) = nodes l1 ++ nodes l2.
Proof. apply bind_app. Qed.

Lemma prune_unfold i e :
  prune i e
  = Element (uid e) (tag e) (attrib e) (text e) (remove_node i (children e)).
Proof. by destruct e. Qed.

Lemma label_prune i e : label (prune i e) = label e.
Proof. by destruct e. Qed.

Lemma uid_prune i e : uid (prune i e) = uid e.
Proof. by destruct e. Qed.

Lemma children_prune i e : children (prune i e) = remove_node i (children e).
Proof. by destruct e. Qed.

Lemma remove_node_nil i : remove_node i [] = [].
Proof. done. Qed.

Lemma remove_node_cons_eq i c l :
  uid c = Parsed i → remove_node i (c :: l) = remove_node i l.
Proof.
  intros Hc. unfold remove_node. rewrite fmap_cons, filter_cons_False; [done|].
  rewrite uid_prune. by intros []. 
Qed.

Lemma remove_node_cons_ne i c l :
  uid c ≠ Parsed i → remove_node i (c :: l) = prune i c :: remove_node i l.
Proof.
  intros Hc. unfold remove_node. rewrite fmap_cons, filter_cons_True; [done|].
  by rewrite uid_prune.
Qed.

Lemma remove_node_app i l1 l2 :
  remove_node i (l1 ++ l2) = remove_node i l1 ++ remove_node i l2.
Proof. unfold remove_node. by rewrite fmap_app, filter_app. Qed.

(** Induction over a forest: the children of the first tree, then the
    trees after it. *)
Lemma forest_ind (P : list element → Prop) :
  P [] → (∀ c l, P (children c) → P l → P (c :: l)) → ∀ l, P l.
Proof.
  intros Hnil Hcons l.
  remember (length (nodes l)) as n eqn:Hn.
  revert l Hn. induction (lt_wf n) as [n _ IH]. intros [|c l] ->; [done|].
  rewrite nodes_cons in IH. simpl in IH. rewrite length_app in IH.
  apply Hcons; (eapply IH; [|done]); lia.
Qed.

Lemma remove_absent i l :
  Parsed i ∉ uid <$> nodes l → remove_node i l = l.
Proof.
  induction l as [|c l IHc IHl] using forest_ind; [done|].
  rewrite nodes_cons, fmap_cons, fmap_app. intros Hi.
  rewrite not_elem_of_cons, not_elem_of_app in Hi. destruct Hi as (Hc & Hcs & Hl).
  rewrite remove_node_cons_ne by done. rewrite IHl by done.
  f_equal. rewrite prune_unfold, IHc by done. by destruct c.
Qed.

Lemma top_labels_remove i (l : list element) :
  Parsed i ∉ uid <$> l → label <$> remove_node i l = label <$> l.
Proof.
  induction l as [|c l IH]; [done|].
  rewrite fmap_cons, not_elem_of_cons. intros [Hc Hl].
  rewrite remove_node_cons_ne by done. rewrite !fmap_cons, label_prune.
  by rewrite IH.
Qed.

Lemma labels_remove_sublist i l :
  label <$> nodes (remove_node i l) `sublist_of` label <$> nodes l.
Proof.
  induction l as [|c l IHc IHl] using forest_ind; [done|].
  rewrite nodes_cons, fmap_cons, fmap_app.
  destruct (decide (uid c = Parsed i)) as [Hc|Hc].
  - rewrite remove_node_cons_eq by done. apply sublist_cons.
    by apply sublist_inserts_l.
  - rewrite remove_node_cons_ne, nodes_cons, children_prune by done.
    rewrite fmap_cons, fmap_app, label_prune. apply sublist_skip.
    by apply sublist_app.
Qed.

Lemma keys_cons e l :
  keys (e :: l) = match uid e with Parsed k => k :: keys l | Built => keys l end.
Proof. unfold keys, index; simpl. by destruct (uid e). Qed.

Lemma keys_app l1 l2 : keys (l1 ++ l2) = keys l1 ++ keys l2.
Proof. apply omap_app. Qed.

Lemma elem_of_keys i (l : list element) : i ∈ keys l ↔ Parsed i ∈ uid <$> l.
Proof.
  unfold keys. rewrite list_elem_of_omap, list_elem_of_fmap. unfold index.
  split.
  - intros (e & He & Hi). exists e. split; [|done]. destruct (uid e); congruence.
  - intros (e & Hi & He). exists e. split; [done|]. by rewrite <- Hi.
Qed.


(** The labels determine the keys. *)
Lemma keys_labels (l : list element) : keys l = omap label_index (label <$> l).
Proof.
  unfold keys. induction l as [|e l IH]; [done|].
  rewrite fmap_cons. cbn [omap list_omap]. rewrite <- IH. done.
Qed.

Lemma uids_labels (l : list element) : uid <$> l = (λ lb, lb.1.1.1) <$> (label <$> l).
Proof. rewrite <- list_fmap_compose. done. Qed.

(** Taking a node out of a forest loses exactly the nodes of its subtree. *)
Lemma remove_present i y l :
  NoDup (keys (nodes l)) → y ∈ nodes l → uid y = Parsed i →
  (label <$> nodes (remove_node i l)) ++ (label <$> iter y)
  ≡ₚ label <$> nodes l.
Proof.
  induction l as [|c l IHc IHl] using forest_ind; intros Hnd Hy Hi.
  { by apply elem_of_nil in Hy. }
  rewrite nodes_cons in Hnd, Hy |- *.
  destruct (decide (uid c = Parsed i)) as [Hc|Hc].
  - rewrite keys_cons, Hc, keys_app in Hnd.
    apply NoDup_cons in Hnd as [Hnot Hnd].
    rewrite not_elem_of_app, !elem_of_keys in Hnot. destruct Hnot as [Hcs Hl].
    assert (y = c) as ->.
    { apply elem_of_cons in Hy as [->|Hy]; [done|].
      apply elem_of_app in Hy as [Hy|Hy].
      - destruct Hcs. rewrite <- Hi. by apply list_elem_of_fmap_2.
      - destruct Hl. rewrite <- Hi. by apply list_elem_of_fmap_2. }
    rewrite remove_node_cons_eq, (remove_absent i l) by done.
    rewrite iter_unfold, !fmap_cons, !fmap_app.
    etrans; [apply Permutation_app_comm|done].
  - assert (NoDup (keys (nodes (children c) ++ nodes l))) as Hnd'.
    { rewrite keys_cons in Hnd. destruct (uid c); [by apply NoDup_cons in Hnd as []|done]. }
    rewrite keys_app in Hnd'. apply NoDup_app in Hnd' as (Hndc & Hdisj & Hndl).
    rewrite remove_node_cons_ne, nodes_cons, children_prune by done.
    rewrite !fmap_cons, !fmap_app, label_prune. simpl. apply Permutation_skip.
    apply elem_of_cons in Hy as [->|Hy]; [done|].
    apply elem_of_app in Hy as [Hy|Hy].
    + assert (Parsed i ∉ uid <$> nodes l) as Hl.
      { rewrite <- elem_of_keys. apply Hdisj. apply elem_of_keys.
        rewrite <- Hi. by apply list_elem_of_fmap_2. }
      rewrite (remove_absent i l) by done.
      rewrite <- (IHc Hndc Hy Hi).
      rewrite <- !(assoc (++)). f_equiv. apply (comm (++)).
    + assert (Parsed i ∉ uid <$> nodes (children c)) as Hcs.
      { rewrite <- elem_of_keys. intros Hin. apply (Hdisj _ Hin). apply elem_of_keys.
        rewrite <- Hi. by apply list_elem_of_fmap_2. }
      rewrite (remove_absent i (children c)) by done.
      rewrite <- (IHl Hndl Hy Hi).
      by rewrite <- !(assoc (++)).
Qed.


(** ** The three trees under [append] *)

Lemma forest_detach i st : forest (detach i st) = remove_node i (forest st).
Proof.
  unfold forest, detach; simpl.
  by rewrite children_prune, !remove_node_app.
Qed.

Lemma forest_attach c x st :
  nodes (forest (attach c x st)) ≡ₚ nodes (forest st) ++ iter x.
Proof.
  assert (nodes [x] = iter x) as Hx by apply bind_singleton.
  unfold forest. destruct c; simpl; rewrite !nodes_app, Hx.
  - rewrite <- !(assoc (++)). f_equiv. f_equiv. apply (comm (++)).
  - by rewrite <- !(assoc (++)).
Qed.

Lemma unique_node i (l : list element) y y' :
  NoDup (keys l) → y ∈ l → y' ∈ l → uid y = Parsed i → uid y' = Parsed i →
  y = y'.
Proof.
  intros Hnd Hy Hy' Hi Hi'.
  apply list_elem_of_split in Hy as (l1 & l2 & ->).
  rewrite keys_app, keys_cons, Hi in Hnd.
  apply NoDup_app in Hnd as (_ & Hdisj & Hnd). apply NoDup_cons in Hnd as [Hl2 _].
  assert (∀ l', y' ∈ l' → i ∈ keys l') as Hin.
  { intros l' Hl'. apply elem_of_keys. rewrite <- Hi'. by apply list_elem_of_fmap_2. }
  apply elem_of_app in Hy' as [Hy'|Hy'].
  { destruct (Hdisj i (Hin _ Hy')). left. }
  apply elem_of_cons in Hy' as [->|Hy']; [done|].
  destruct Hl2. by apply Hin.
Qed.

Lemma live_spec i st y :
  wf st → y ∈ nodes (forest st) → uid y = Parsed i → live i st = Some y.
Proof.
  intros Hwf Hy Hi. unfold live, find_node.
  destruct (filter _ _) as [|y' l] eqn:Hf.
  - assert (y ∈ filter (λ c, uid c = Parsed i) (nodes (forest st))) as Hin.
    { by apply list_elem_of_filter. }
    rewrite Hf in Hin. by apply elem_of_nil in Hin.
  - assert (y' ∈ filter (λ c, uid c = Parsed i) (nodes (forest st))) as Hin.
    { rewrite Hf. left. }
    apply list_elem_of_filter in Hin as [Hi' Hy'].
    simpl. f_equal. by eapply unique_node.
Qed.

(** A handle whose label is alive stands for exactly one live node. *)
Lemma append_moves c x i st :
  wf st → uid x = Parsed i → label x ∈ label <$> nodes (forest st) →
  ∃ y, y ∈ nodes (forest st) ∧ label y = label x
       ∧ append c x st = attach c y (detach i st).
Proof.
  intros Hwf Hi Hx. apply list_elem_of_fmap in Hx as (y & Hlab & Hy).
  assert (uid y = Parsed i) as Hiy.
  { rewrite <- Hi. by injection Hlab. }
  exists y. split_and!; [done|done|].
  unfold append. by rewrite Hi, (live_spec i st y).
Qed.

Lemma labels_append c x i st :
  wf st → uid x = Parsed i → label x ∈ label <$> nodes (forest st) →
  label <$> nodes (forest (append c x st)) ≡ₚ label <$> nodes (forest st).
Proof.
  intros Hwf Hi Hx.
  destruct (append_moves c x i st) as (y & Hy & Hlab & ->); [done..|].
  rewrite forest_attach, fmap_app, forest_detach.
  apply remove_present; [done|done|].
  rewrite <- Hi. by injection Hlab.
Qed.

Lemma wf_labels st st' :
  label <$> nodes (forest st') ≡ₚ label <$> nodes (forest st) →
  wf st → wf st'.
Proof. unfold wf. rewrite !keys_labels. by intros ->. Qed.


Lemma contents_attach c x st : contents c (attach c x st) = contents c st ++ [x].
Proof. by destruct c. Qed.

Lemma contents_attach_ne c c' x st :
  c ≠ c' → contents c' (attach c x st) = contents c' st.
Proof. by destruct c, c'. Qed.

Lemma contents_detach c i st :
  contents c (detach i st) = remove_node i (contents c st).
Proof. by destruct c. Qed.

Lemma root_attach c x st : root (attach c x st) = root st.
Proof. by destruct c. Qed.

Lemma descendants_prune i e :
  label <$> descendants (prune i e) `sublist_of` label <$> descendants e.
Proof.
  unfold descendants. rewrite children_prune. apply labels_remove_sublist.
Qed.

(** What a run of appends does, for handles that are alive, distinct and
    not yet direct children of the container. *)
Lemma append_all_spec c xs : ∀ st,
  wf st →
  Forall (λ x, is_Some (index x)) xs →
  NoDup (uid <$> xs) →
  (∀ x, x ∈ xs → label x ∈ label <$> nodes (forest st)) →
  (∀ x, x ∈ xs → uid x ∉ uid <$> contents c st) →
  wf (append_all c xs st)
  ∧ label <$> nodes (forest (append_all c xs st))
    ≡ₚ label <$> nodes (forest st)
  ∧ label <$> contents c (append_all c xs st)
    = (label <$> contents c st) ++ (label <$> xs)
  ∧ label <$> descendants (root (append_all c xs st))
    `sublist_of` label <$> descendants (root st)
  ∧ label (root (append_all c xs st)) = label (root st)
  ∧ ∀ c', c' ≠ c →
      (∀ x, x ∈ xs → uid x ∉ uid <$> nodes (contents c' st)) →
      contents c' (append_all c xs st) = contents c' st.
Proof.
  induction xs as [|x xs IH]; intros st Hwf Hpar Hnd Hlive Htop.
  { simpl. rewrite app_nil_r. done. }
  apply Forall_cons in Hpar as [[i Hi] Hpar].
  assert (uid x = Parsed i) as Hux.
  { unfold index in Hi. destruct (uid x); congruence. }
  rewrite fmap_cons in Hnd. apply NoDup_cons in Hnd as [Hx Hnd].
  assert (label x ∈ label <$> nodes (forest st)) as Hlx by (apply Hlive; left).
  destruct (append_moves c x i st) as (y & Hy & Hlab & Happ); [done..|].
  pose proof (labels_append c x i st Hwf Hux Hlx) as Hperm.
  assert (wf (append c x st)) as Hwf1 by by eapply wf_labels.
  assert (label <$> contents c (append c x st)
          = (label <$> contents c st) ++ [label x]) as Htop1.
  { rewrite Happ, contents_attach, contents_detach, fmap_app. simpl.
    rewrite Hlab, top_labels_remove; [done|].
    rewrite <- Hux. apply Htop. left. }
  unfold append_all. simpl. fold (append_all c xs (append c x st)).
  destruct (IH (append c x st)) as (Hwf' & Hperm' & Htop' & Hsub' & Hroot' & Hoth');
    [done|done|done|..].
  { intros x' Hx'. rewrite Hperm. apply Hlive. by right. }
  { intros x' Hx'. rewrite uids_labels, Htop1, fmap_app, <- uids_labels. simpl.
    rewrite not_elem_of_app, list_elem_of_singleton. split.
    - apply Htop. by right.
    - intros Heq. apply Hx. rewrite <- Heq. by apply list_elem_of_fmap_2. }
  split_and!.
  - done.
  - by rewrite Hperm'.
  - rewrite Htop', Htop1, <- (assoc (++)). done.
  - etrans; [exact Hsub'|]. rewrite Happ, root_attach. apply descendants_prune.
  - rewrite Hroot', Happ, root_attach. apply label_prune.
  - intros c' Hc' Hfree.
    assert (contents c' (append c x st) = contents c' st) as Heq.
    { rewrite Happ, contents_attach_ne, contents_detach by done.
      apply remove_absent. rewrite <- Hux. apply Hfree. left. }
    rewrite Hoth'; [done|done|].
    intros x' Hx'. rewrite Heq. apply Hfree. by right.
Qed.


(** ** Queries on the source tree *)


Lemma Forall_sublist {A} (P : A → Prop) (l k : list A) :
  l `sublist_of` k → Forall P k → Forall P l.
Proof.
  induction 1 as [|x l k _ IH|x l k _ IH]; intros Hk; [done|..].
  - apply Forall_cons in Hk as [??]. constructor; auto.
  - apply Forall_cons in Hk as [??]. auto.
Qed.

Lemma index_label e : index e = label_index (label e).
Proof. done. Qed.

Lemma uids_parsed (l : list element) :
  Forall (λ lb, is_Some (label_index lb)) (label <$> l) →
  uid <$> l = Parsed <$> keys l.
Proof.
  induction l as [|e l IH]; [done|]. rewrite fmap_cons.
  intros [[i Hi] Hl]%Forall_cons. rewrite <- index_label in Hi.
  rewrite keys_cons, fmap_cons. unfold index in Hi.
  destruct (uid e); [|done]. rewrite fmap_cons, IH by done. done.
Qed.

Section Findall.
Context (P : element → Prop) `{∀ e, Decision (P e)}.
Context (st : trees) (Hinv : inv st).

Lemma findall_descendant x : x ∈ findall P (root st) → x ∈ descendants (root st).
Proof. unfold findall. by intros [_ ?]%list_elem_of_filter. Qed.

Lemma findall_parsed : Forall (λ x, is_Some (index x)) (findall P (root st)).
Proof.
  destruct Hinv as [_ Hpar]. rewrite Forall_fmap in Hpar.
  apply Forall_forall. intros x Hx%findall_descendant.
  rewrite Forall_forall in Hpar. apply (Hpar x Hx).
Qed.

Lemma descendants_NoDup : NoDup (uid <$> descendants (root st)).
Proof.
  destruct Hinv as [Hwf Hpar]. rewrite uids_parsed by done.
  apply NoDup_fmap_2; [by intros ?? [= ->]|].
  unfold wf, forest in Hwf. rewrite nodes_app, keys_app in Hwf.
  by apply NoDup_app in Hwf as (? & _ & _).
Qed.

Lemma findall_NoDup : NoDup (uid <$> findall P (root st)).
Proof.
  eapply sublist_NoDup; [apply descendants_NoDup|].
  apply fmap_sublist, sublist_filter.
Qed.

Lemma findall_live x :
  x ∈ findall P (root st) → label x ∈ label <$> nodes (forest st).
Proof.
  intros Hx%findall_descendant. apply list_elem_of_fmap_2.
  unfold forest. rewrite nodes_app. apply elem_of_app. by left.
Qed.

Lemma findall_fresh c x :
  x ∈ findall P (root st) → uid x ∉ uid <$> nodes (contents c st).
Proof.
  intros Hx. pose proof (findall_descendant x Hx) as Hd.
  pose proof findall_parsed as Hpar. rewrite Forall_forall in Hpar.
  destruct (Hpar x Hx) as [i Hi]. unfold index in Hi.
  destruct (uid x) as [k|] eqn:Hux; [|done]. injection Hi as ->.
  destruct Hinv as [Hwf _]. unfold wf, forest in Hwf.
  rewrite !nodes_app, !keys_app in Hwf.
  apply NoDup_app in Hwf as (_ & Hdisj & _).
  assert (i ∈ keys (descendants (root st))) as Hin.
  { apply elem_of_keys. rewrite <- Hux. by apply list_elem_of_fmap_2. }
  specialize (Hdisj i Hin). rewrite not_elem_of_app, !elem_of_keys in Hdisj.
  destruct Hdisj. by destruct c.
Qed.

Lemma nodes_top (l : list element) x : x ∈ l → x ∈ nodes l.
Proof.
  intros Hx. unfold nodes. apply list_elem_of_bind. exists x.
  split; [|done]. rewrite iter_unfold. left.
Qed.

Lemma findall_fresh_top c x :
  x ∈ findall P (root st) → uid x ∉ uid <$> contents c st.
Proof.
  intros Hx Hin. apply (findall_fresh c x Hx).
  apply list_elem_of_fmap in Hin as (y & -> & Hy).
  by apply list_elem_of_fmap_2, nodes_top.
Qed.

(** Moving the result of a query into a container. *)
Lemma append_findall c :
  let st' := append_all c (findall P (root st)) st in
  inv st'
  ∧ label <$> contents c st'
    = (label <$> contents c st) ++ (label <$> findall P (root st))
  ∧ label <$> descendants (root st') `sublist_of` label <$> descendants (root st)
  ∧ label (root st') = label (root st)
  ∧ ∀ c', c' ≠ c → contents c' st' = contents c' st.
Proof.
  intros st'.
  destruct (append_all_spec c (findall P (root st)) st)
    as (Hwf' & _ & Htop' & Hsub' & Hroot' & Hoth').
  - apply Hinv.
  - apply findall_parsed.
  - apply findall_NoDup.
  - apply findall_live.
  - apply findall_fresh_top.
  - split_and!; [split; [done|]|done..|].
    + eapply Forall_sublist; [exact Hsub'|apply Hinv].
    + intros c' Hc'. apply Hoth'; [done|]. intros x. apply findall_fresh.
Qed.

End Findall.


(** ** The page loop *)



Lemma inv_attach_built x st :
  uid x = Built → children x = [] → inv st → inv (attach Div x st).
Proof.
  intros Hx Hcs [Hwf Hpar]. split; [|done].
  unfold wf, keys in *. rewrite forest_attach, omap_app, iter_unfold, Hcs.
  simpl. unfold index at 2. rewrite Hx. simpl. by rewrite app_nil_r.
Qed.

Lemma page_step_eq st n :
  page_step st n
  = append_all Div (page_content n (root st)) (attach Div (pb n) st).
Proof.
  unfold page_step, page_content. simpl.
  by destruct (findall (is_table n) (root st)).
Qed.

Lemma page_content_cases n root :
  page_content n root = findall (is_table n) root
  ∨ page_content n root = findall (is_ab n) root.
Proof. unfold page_content. destruct (findall (is_table n) root); auto. Qed.

Lemma page_step_spec st n :
  inv st →
  inv (page_step st n)
  ∧ label <$> div (page_step st n)
    = (label <$> div st) ++ label (pb n) :: (label <$> page_content n (root st))
  ∧ label <$> descendants (root (page_step st n))
    `sublist_of` label <$> descendants (root st)
  ∧ label (root (page_step st n)) = label (root st)
  ∧ facsimile (page_step st n) = facsimile st.
Proof.
  intros Hinv.
  assert (inv (attach Div (pb n) st)) as Hinv1 by by apply inv_attach_built.
  rewrite page_step_eq.
  assert (∀ (P : element → Prop) `{∀ e, Decision (P e)},
    page_content n (root st) = findall P (root st) →
    inv (append_all Div (page_content n (root st)) (attach Div (pb n) st))
    ∧ label <$> div (append_all Div (page_content n (root st)) (attach Div (pb n) st))
      = (label <$> div st) ++ label (pb n) :: (label <$> page_content n (root st))
    ∧ label <$> descendants (root (append_all Div (page_content n (root st)) (attach Div (pb n) st)))
      `sublist_of` label <$> descendants (root st)
    ∧ label (root (append_all Div (page_content n (root st)) (attach Div (pb n) st))) = label (root st)
    ∧ facsimile (append_all Div (page_content n (root st)) (attach Div (pb n) st)) = facsimile st) as Hgen.
  { intros P ? ->.
    destruct (append_findall P _ Hinv1 Div)
      as (Hinv' & Htop & Hsub & Hroot & Hoth).
    simpl in *. split_and!; [done| |done|done|].
    + rewrite Htop, fmap_app, <- (assoc (++)). done.
    + apply (Hoth Facsimile). done. }
  destruct (page_content_cases n (root st)); eauto.
Qed.

Lemma filter_none {A} (P : A → Prop) `{∀ x, Decision (P x)} (l : list A) :
  Forall (λ x, ¬ P x) l → filter P l = [].
Proof.
  induction 1 as [|x l Hx _ IH]; [done|]. by rewrite filter_cons_False.
Qed.

Lemma page_content_not_pb n root :
  filter (λ lb, label_tag lb = "pb"%string) (label <$> page_content n root) = [].
Proof.
  apply filter_none, Forall_fmap, Forall_forall. intros x Hx.
  assert (tag x = tei "table" ∨ tag x = tei "ab") as Htag.
  { destruct (page_content_cases n root) as [Heq|Heq]; rewrite Heq in Hx;
      apply list_elem_of_filter in Hx as [[Ht _] _]; auto. }
  unfold label_tag, label; simpl. by destruct Htag as [-> | ->].
Qed.

Lemma page_loop_spec pages : ∀ st,
  inv st →
  inv (page_loop st pages)
  ∧ label <$> descendants (root (page_loop st pages))
    `sublist_of` label <$> descendants (root st)
  ∧ label (root (page_loop st pages)) = label (root st)
  ∧ facsimile (page_loop st pages) = facsimile st
  ∧ ∃ rest,
      label <$> div (page_loop st pages) = (label <$> div st) ++ rest
      ∧ match pages with
        | [] => rest = []
        | n :: _ => ∃ rest', rest = label (pb n) :: rest'
        end
      ∧ filter (λ lb, label_tag lb = "pb"%string) rest = label ∘ pb <$> pages.
Proof.
  induction pages as [|n pages IH]; intros st Hinv.
  { simpl. split_and!; [done..|]. exists []. by rewrite app_nil_r. }
  destruct (page_step_spec st n Hinv) as (Hinv1 & Hdiv1 & Hsub1 & Hroot1 & Hfac1).
  destruct (IH _ Hinv1) as (Hinv' & Hsub' & Hroot' & Hfac' & rest & Hdiv' & _ & Hpb').
  change (page_loop st (n :: pages)) with (page_loop (page_step st n) pages).
  split_and!.
  - done.
  - by etrans.
  - congruence.
  - congruence.
  - exists (label (pb n) :: (label <$> page_content n (root st)) ++ rest).
    split_and!.
    + rewrite Hdiv', Hdiv1, <- (assoc (++)). done.
    + eauto.
    + rewrite filter_cons_True by done. rewrite filter_app, page_content_not_pb, Hpb'.
      done.
Qed.


(** ** Decimal strings and ranges *)

Lemma str_inj n n' : str n = str n' → n = n'.
Proof.
  unfold str. intros Heq. apply DecimalZ.to_int_inj.
  assert (∀ z, Z.to_int z ≠ Decimal.Pos Decimal.Nil
               ∧ Z.to_int z ≠ Decimal.Neg Decimal.Nil) as Hnn.
  { intros [|p|p]; simpl; split; try done;
      intros [= Hp]; by apply Unsigned.to_uint_nonnil in Hp. }
  assert (Some (Z.to_int n) = Some (Z.to_int n')) as [= ->]; [|done].
  rewrite <- (NilZero.isi (Z.to_int n)), <- (NilZero.isi (Z.to_int n'));
    [by rewrite Heq|apply Hnn..].
Qed.

Lemma range_split a n b :
  (a ≤ n < b)%Z → range a b = range a n ++ n :: range (n + 1) b.
Proof.
  intros Hn. unfold range.
  replace (b - a)%Z with ((n - a) + (b - n))%Z by lia.
  rewrite seqZ_app by lia. f_equal.
  replace (a + (n - a))%Z with n by lia.
  rewrite seqZ_cons by lia. f_equal. f_equal; lia.
Qed.

(** ** The parser's numbering *)

Lemma xml_ind' (P : xml → Prop) :
  (∀ tg a x cs, Forall P cs → P (Xml tg a x cs)) → ∀ t, P t.
Proof.
  intros Hstep. fix IH 1. intros [tg a x cs]. apply Hstep.
  induction cs as [|c cs IHcs]; constructor; [apply IH|apply IHcs].
Qed.


Lemma numbered_cons e es k k1 k2 :
  numbered [e] k k1 → numbered es k1 k2 → numbered (e :: es) k k2.
Proof.
  intros [Hle1 He] [Hle2 Hes]. split; [lia|].
  change (e :: es) with ([e] ++ es). rewrite nodes_app, fmap_app, He, Hes.
  replace (k2 - k)%nat with ((k1 - k) + (k2 - k1))%nat by lia.
  rewrite seq_app, fmap_app. do 3 f_equal. lia.
Qed.

Lemma number_list_numbered cs :
  Forall (λ t, ∀ k, numbered [(number t k).1] k (number t k).2) cs →
  ∀ k, numbered (number_list number cs k).1 k (number_list number cs k).2.
Proof.
  induction 1 as [|c cs Hc _ IH]; intros k.
  { split; simpl; [lia|]. by rewrite Nat.sub_diag. }
  simpl. specialize (Hc k). destruct (number c k) as [c' k1].
  specialize (IH k1). destruct (number_list number cs k1) as [cs' k2].
  by eapply numbered_cons.
Qed.

Lemma number_unfold tg a x cs k :
  number (Xml tg a x cs) k
  = (Element (Parsed k) tg a x (number_list number cs (S k)).1,
     (number_list number cs (S k)).2).
Proof. simpl. by destruct (number_list number cs (S k)). Qed.

Lemma number_numbered t : ∀ k, numbered [(number t k).1] k (number t k).2.
Proof.
  induction t as [tg a x cs IH] using xml_ind'. intros k.
  pose proof (number_list_numbered cs IH (S k)) as [Hle Hcs].
  rewrite number_unfold.
  destruct (number_list number cs (S k)) as [cs' k']. simpl fst in *. simpl snd in *.
  split; [lia|].
  unfold nodes at 1. rewrite bind_singleton, iter_unfold, fmap_cons.
  simpl children. simpl uid. rewrite Hcs.
  replace (k' - k)%nat with (S (k' - S k)) by lia. done.
Qed.

Lemma inv_getroot doc : inv (Build (getroot doc) [] []).
Proof.
  unfold getroot. pose proof (number_numbered doc 0%nat) as [_ Hn].
  destruct (number doc 0) as [e k']. simpl fst in *. simpl snd in *.
  unfold nodes in Hn. rewrite bind_singleton, iter_unfold, fmap_cons in Hn.
  rewrite Nat.sub_0_r in Hn. destruct k' as [|k']; [done|].
  simpl in Hn. injection Hn as _ Hn.
  assert (Forall (λ lb, is_Some (label_index lb)) (label <$> descendants e)) as Hpar.
  { apply Forall_fmap, Forall_forall. intros y Hy. change (is_Some (index y)).
    assert (uid y ∈ uid <$> nodes (children e)) as Hu by by apply list_elem_of_fmap_2.
    rewrite Hn in Hu. apply list_elem_of_fmap in Hu as (i & Hi & _).
    unfold index. by rewrite Hi. }
  split; [|done]. unfold wf, forest. simpl. rewrite !app_nil_r.
  assert (Inj eq eq Parsed) as Hinj by by intros ?? [= ->].
  apply (NoDup_fmap_1 Parsed). fold (descendants e).
  rewrite <- uids_parsed by done. unfold descendants. rewrite Hn.
  apply NoDup_fmap_2; [done|]. apply NoDup_ListNoDup, List.seq_NoDup.
Qed.


(** ** The facsimile loop *)

Lemma surfaces_distinct st pages :
  inv st → NoDup pages →
  NoDup (uid <$> extract_surface_elements (root st) pages).
Proof.
  intros Hinv Hpages.
  pose proof (descendants_NoDup st Hinv) as Hnd.
  apply NoDup_fmap_2_strong.
  - intros x y Hx Hy Huid.
    assert (∀ z, z ∈ extract_surface_elements (root st) pages →
                 z ∈ descendants (root st)) as Hdesc.
    { intros z (n & Hz & _)%list_elem_of_bind. by eapply findall_descendant. }
    apply (NoDup_fmap_1 uid) in Hnd as Hnd'.
    apply Hdesc in Hx, Hy.
    apply list_elem_of_lookup in Hx as [ix Hix]. apply list_elem_of_lookup in Hy as [iy Hiy].
    assert (ix = iy) as ->; [|congruence].
    eapply NoDup_lookup; [exact Hnd|..]; rewrite list_lookup_fmap.
    + by rewrite Hix.
    + by rewrite Hiy, Huid.
  - unfold extract_surface_elements. apply NoDup_bind; [| |done].
    + intros n1 n2 y _ _ [[_ H1] _]%list_elem_of_filter [[_ H2] _]%list_elem_of_filter.
      rewrite H1 in H2. injection H2 as H2. by apply str_inj.
    + intros n _. apply NoDup_filter. by apply (NoDup_fmap_1 uid).
Qed.

Lemma facsimile_loop_spec st pages :
  inv st → NoDup pages →
  let st' := append_all Facsimile (extract_surface_elements (root st) pages) st in
  inv st'
  ∧ label <$> facsimile st'
    = (label <$> facsimile st)
      ++ (label <$> extract_surface_elements (root st) pages)
  ∧ label <$> descendants (root st') `sublist_of` label <$> descendants (root st)
  ∧ label (root st') = label (root st)
  ∧ div st' = div st.
Proof.
  intros Hinv Hpages st'.
  assert (∀ x, x ∈ extract_surface_elements (root st) pages →
               ∃ n, x ∈ findall (is_surface n) (root st)) as Hsome.
  { intros x (n & Hx & _)%list_elem_of_bind. eauto. }
  destruct (append_all_spec Facsimile (extract_surface_elements (root st) pages) st)
    as (Hwf' & _ & Htop' & Hsub' & Hroot' & Hoth').
  - apply Hinv.
  - apply Forall_forall. intros x [n Hx]%Hsome.
    pose proof (findall_parsed (is_surface n) st Hinv) as Hpar.
    rewrite Forall_forall in Hpar. by apply Hpar.
  - by apply surfaces_distinct.
  - intros x [n Hx]%Hsome. apply (findall_live (is_surface n) st x Hx).
  - intros x [n Hx]%Hsome. apply (findall_fresh_top (is_surface n) st Hinv _ x Hx).
  - split_and!; [split; [done|]|done..|].
    + eapply Forall_sublist; [exact Hsub'|apply Hinv].
    + apply (Hoth' Div); [done|]. intros x [n Hx]%Hsome.
      apply (findall_fresh (is_surface n) st Hinv Div x Hx).
Qed.

(** ** Queries only look at labels *)

Lemma is_table_label n e e' : label e = label e' → is_table n e → is_table n e'.
Proof. unfold is_table, get. intros [= _ <- <- _]. done. Qed.

Lemma is_ab_label n e e' : label e = label e' → is_ab n e → is_ab n e'.
Proof. unfold is_ab, get. intros [= _ <- <- _]. done. Qed.

Lemma findall_nil_mono (P : element → Prop) `{∀ e, Decision (P e)} root root' :
  (∀ e e', label e = label e' → P e → P e') →
  label <$> descendants root' `sublist_of` label <$> descendants root →
  findall P root = [] → findall P root' = [].
Proof.
  intros Hresp Hsub Hnil.
  destruct (findall P root') as [|x xs] eqn:Hx; [done|].
  assert (x ∈ findall P root') as [HP Hd]%list_elem_of_filter by (rewrite Hx; left).
  apply (list_elem_of_fmap_2 label) in Hd.
  apply (sublist_subseteq _ _ Hsub) in Hd.
  apply list_elem_of_fmap in Hd as (y & Hlab & Hy).
  assert (y ∈ findall P root) as Hin.
  { apply list_elem_of_filter. split; [|done]. by apply (Hresp x). }
  rewrite Hnil in Hin. by apply elem_of_nil in Hin.
Qed.

(** ** Page breaks stay what they were made *)


Lemma leaves_built_remove i l : leaves_built l → leaves_built (remove_node i l).
Proof.
  unfold leaves_built. induction 1 as [|c l Hc _ IH]; [constructor|].
  destruct (decide (uid c = Parsed i)).
  - by rewrite remove_node_cons_eq.
  - rewrite remove_node_cons_ne by done. constructor; [|done].
    rewrite uid_prune, children_prune. intros Hb. by rewrite Hc.
Qed.

Lemma live_uid i st y : live i st = Some y → uid y = Parsed i.
Proof.
  unfold live, find_node. intros Hh.
  apply head_Some_elem_of in Hh. by apply list_elem_of_filter in Hh as [? _].
Qed.

Lemma leaves_built_append c x st :
  is_Some (index x) → leaves_built (div st) → leaves_built (div (append c x st)).
Proof.
  intros [i Hi] HK. unfold index in Hi. unfold append.
  destruct (uid x) as [k|] eqn:Hux; [|done].
  destruct (live k st) as [y|] eqn:Hlive.
  - apply live_uid in Hlive.
    destruct c; simpl; [by apply leaves_built_remove|].
    apply Forall_app. split; [by apply leaves_built_remove|].
    constructor; [|constructor]. by rewrite Hlive.
  - destruct c; simpl; [done|]. apply Forall_app. split; [done|].
    constructor; [|constructor]. by rewrite Hux.
Qed.

Lemma leaves_built_append_all c xs : ∀ st,
  Forall (λ x, is_Some (index x)) xs →
  leaves_built (div st) → leaves_built (div (append_all c xs st)).
Proof.
  induction xs as [|x xs IH]; intros st Hpar HK; [done|].
  apply Forall_cons in Hpar as [Hx Hpar].
  apply (IH (append c x st)); [done|]. by apply leaves_built_append.
Qed.

Lemma leaves_built_page_step st n :
  inv st → leaves_built (div st) → leaves_built (div (page_step st n)).
Proof.
  intros Hinv HK. rewrite page_step_eq.
  assert (inv (attach Div (pb n) st)) as Hinv1 by by apply inv_attach_built.
  apply leaves_built_append_all.
  - destruct (page_content_cases n (root st)) as [-> | ->].
    + apply (findall_parsed (is_table n) _ Hinv1).
    + apply (findall_parsed (is_ab n) _ Hinv1).
  - simpl. apply Forall_app. split; [done|]. by repeat constructor.
Qed.

Lemma leaves_built_page_loop pages : ∀ st,
  inv st → leaves_built (div st) → leaves_built (div (page_loop st pages)).
Proof.
  induction pages as [|n pages IH]; intros st Hinv HK; [done|].
  apply (IH (page_step st n)).
  - by apply page_step_spec.
  - by apply leaves_built_page_step.
Qed.

Lemma pb_of_label e n : label e = label (pb n) → children e = [] → e = pb n.
Proof. destruct e. simpl. intros [= -> -> -> ->] ->. done. Qed.

Lemma page_breaks_of_labels (l : list element) : ∀ pages,
  leaves_built l →
  filter (λ lb, label_tag lb = "pb"%string) (label <$> l) = label ∘ pb <$> pages →
  filter (λ e, tag e = "pb"%string) l = pb <$> pages.
Proof.
  induction l as [|e l IH]; intros pages HK Hf.
  { destruct pages; [done|]. by rewrite fmap_cons in Hf. }
  apply Forall_cons in HK as [He HK]. rewrite fmap_cons in Hf.
  destruct (decide (tag e = "pb"%string)) as [Ht|Ht].
  - rewrite filter_cons_True in Hf by done. rewrite filter_cons_True by done.
    destruct pages as [|n pages]; [done|]. rewrite fmap_cons in Hf.
    pose proof (f_equal (λ k, match k with x :: _ => x | [] => label e end) Hf)
      as Hlab.
    pose proof (f_equal tail Hf) as Hf'. simpl in Hlab, Hf'.
    rewrite fmap_cons. f_equal; [|by apply IH].
    apply pb_of_label; [exact Hlab|]. apply He. by injection Hlab.
  - rewrite filter_cons_False in Hf by done. rewrite filter_cons_False by done.
    by apply IH.
Qed.


Lemma inv_surfaces doc pages :
  NoDup pages →
  let st0 := append_all Facsimile (extract_surface_elements (getroot doc) pages)
               (Build (getroot doc) [] []) in
  inv st0 ∧ div st0 = []
  ∧ label <$> descendants (root st0) `sublist_of` label <$> descendants (getroot doc).
Proof.
  intros Hnd st0.
  destruct (facsimile_loop_spec (Build (getroot doc) [] []) pages (inv_getroot doc) Hnd)
    as (Hinv & _ & Hsub & _ & Hdiv).
  done.
Qed.

Lemma range_head n b : (n < b)%Z → range n b = n :: range (n + 1) b.
Proof.
  intros Hn. unfold range. rewrite seqZ_cons by lia. f_equal. f_equal; lia.
Qed.

Lemma first_of_range n b rest :
  match range n b with
  | [] => rest = []
  | m :: _ => ∃ rest', rest = label (pb m) :: rest'
  end →
  rest = [] ∨ ∃ rest', rest = label (pb n) :: rest'.
Proof.
  destruct (decide (n < b)%Z) as [Hn|Hn].
  - rewrite range_head by done. auto.
  - unfold range. rewrite seqZ_nil by lia. auto.
Qed.

End TreeFacts.

(* ===================================================================== *)
(** * Facts about bytes.replace and the fix-up                          *)
(* ===================================================================== *)

Module BytesFacts.
Import Py Splitter.

Lemma byte_eqb_eq (x y : byte) : Byte.eqb x y = true ↔ x = y.
Proof. split; [apply byte_dec_bl|apply byte_dec_lb]. Qed.

Lemma byte_eqb_sym (x y : byte) : Byte.eqb x y = Byte.eqb y x.
Proof.
  destruct (Byte.eqb x y) eqn:E1, (Byte.eqb y x) eqn:E2; try done.
  - apply byte_eqb_eq in E1 as ->. by rewrite (byte_dec_lb eq_refl) in E2.
  - apply byte_eqb_eq in E2 as ->. by rewrite (byte_dec_lb eq_refl) in E1.
Qed.

Lemma startswith_spec p : ∀ s, startswith p s = true ↔ ∃ r, s = p ++ r.
Proof.
  induction p as [|x p IH]; intros s.
  { simpl. split; [by exists s|done]. }
  destruct s as [|y s]; simpl.
  { split; [done|]. by intros [r ?]. }
  rewrite andb_true_iff, byte_eqb_eq, IH. split.
  - intros [-> [r ->]]. by exists r.
  - intros [r [= -> ->]]. eauto.
Qed.

Lemma scan_skip old new k : ∀ s,
  replace_scan old new k s = replace_scan old new 0 (drop k s).
Proof.
  induction k as [|k IH]; intros s; [done|].
  destruct s as [|c s]; [done|]. simpl. apply IH.
Qed.

(** One step of [replace] for a non-empty pattern. *)
Lemma replace_cons old new c s :
  old ≠ [] →
  replace (c :: s) old new
  = if startswith old (c :: s)
    then new ++ replace (drop (length old) (c :: s)) old new
    else c :: replace s old new.
Proof.
  destruct old as [|o old]; [done|]. intros _. unfold replace.
  cbn [replace_scan]. destruct (startswith _ _); [|done].
  f_equal. rewrite scan_skip. f_equal. simpl. by rewrite Nat.sub_0_r.
Qed.

Lemma replace_nil old new : old ≠ [] → replace [] old new = [].
Proof. by destruct old. Qed.

(** Replacing a pattern by itself changes nothing. *)
Lemma replace_same old : old ≠ [] → ∀ s, replace s old old = s.
Proof.
  intros Hold s. remember (length s) as n eqn:Hn. revert s Hn.
  induction (lt_wf n) as [n _ IH]. intros [|c s] ->; [by apply replace_nil|].
  rewrite replace_cons by done.
  destruct (startswith old (c :: s)) eqn:Hs.
  - apply startswith_spec in Hs as [r Hr]. rewrite Hr at 2. f_equal.
    rewrite Hr, drop_app_length. eapply IH; [|done].
    rewrite Hr, length_app. destruct old; [done|]. simpl. lia.
  - f_equal. eapply IH; [|done]. simpl. lia.
Qed.

Lemma startswith_lf_lb c s :
  startswith lf_lb (c :: s) = Byte.eqb c LF && startswith lb s.
Proof. unfold lf_lb. cbn [startswith]. by rewrite byte_eqb_sym. Qed.

Lemma drop_lf_before_lb_lb r :
  drop_lf_before_lb (lb ++ r) = lb ++ drop_lf_before_lb r.
Proof. done. Qed.

(** The second replacement is the description's fix-up. *)
Lemma replace_lf_lb s : replace s lf_lb lb = drop_lf_before_lb s.
Proof.
  remember (length s) as n eqn:Hn. revert s Hn.
  induction (lt_wf n) as [n _ IH]. intros [|c s] ->; [done|].
  rewrite replace_cons by done. rewrite startswith_lf_lb.
  cbn [drop_lf_before_lb].
  destruct (Byte.eqb c LF && startswith lb s) eqn:Hs.
  - apply andb_true_iff in Hs as [_ [r ->]%startswith_spec].
    rewrite drop_lf_before_lb_lb. f_equal. eapply IH; [|done]. simpl. lia.
  - f_equal. eapply IH; [|done]. simpl. lia.
Qed.

Lemma lb_fixup_drop s : lb_fixup s = drop_lf_before_lb s.
Proof. unfold lb_fixup. by rewrite replace_same, replace_lf_lb. Qed.

Lemma contains_bytes_cons c s p :
  contains_bytes (c :: s) p = false →
  startswith p (c :: s) = false ∧ contains_bytes s p = false.
Proof. simpl. by intros ?%orb_false_iff. Qed.

Lemma contains_bytes_app pre s p :
  contains_bytes (pre ++ s) p = false → contains_bytes s p = false.
Proof.
  induction pre as [|c pre IH]; [done|]. intros [_ ?]%contains_bytes_cons.
  by apply IH.
Qed.

(** A kept byte other than [<] heads the output only if it heads the
    input. *)
Lemma drop_head x t s :
  drop_lf_before_lb s = x :: t → x ≠ "<"%byte →
  ∃ s0, s = x :: s0 ∧ drop_lf_before_lb s0 = t.
Proof.
  destruct s as [|c s0]; [done|]. cbn [drop_lf_before_lb].
  destruct (Byte.eqb c LF && startswith lb s0) eqn:Hs.
  - apply andb_true_iff in Hs as [_ [r ->]%startswith_spec].
    rewrite drop_lf_before_lb_lb. by intros [= <- _] ?.
  - intros [= -> <-] _. eauto.
Qed.

(** Where the output starts with [<lb], the input starts with [<lb] or
    with a line break and [<lb]. *)
Lemma drop_startswith_lb s :
  startswith lb (drop_lf_before_lb s) = true →
  startswith lb s = true ∨ startswith lf_lb s = true.
Proof.
  intros [t Ht]%startswith_spec. destruct s as [|c s0]; [done|].
  rewrite startswith_lf_lb. cbn [drop_lf_before_lb] in Ht.
  destruct (Byte.eqb c LF && startswith lb s0) eqn:Hs; [by right|]. left.
  injection Ht as -> Ht.
  apply drop_head in Ht as (s1 & -> & Ht); [|done].
  apply drop_head in Ht as (s2 & -> & Ht); [|done].
  done.
Qed.

Lemma drop_idempotent s :
  contains_bytes s lf_lf_lb = false →
  drop_lf_before_lb (drop_lf_before_lb s) = drop_lf_before_lb s.
Proof.
  remember (length s) as n eqn:Hn. revert s Hn.
  induction (lt_wf n) as [n _ IH]. intros [|c s] -> Hno; [done|].
  apply contains_bytes_cons in Hno as [Hhere Hno].
  cbn [drop_lf_before_lb].
  destruct (Byte.eqb c LF && startswith lb s) eqn:Hs.
  - eapply IH; [|done..]. simpl. lia.
  - cbn [drop_lf_before_lb].
    assert (drop_lf_before_lb (drop_lf_before_lb s) = drop_lf_before_lb s) as ->.
    { eapply IH; [|done..]. simpl. lia. }
    destruct (Byte.eqb c LF && startswith lb (drop_lf_before_lb s)) eqn:Hs'; [|done].
    apply andb_true_iff in Hs' as [Hc Hlb]. rewrite Hc in Hs. cbn [andb] in Hs.
    apply drop_startswith_lb in Hlb as [Hlb|Hlb]; [congruence|].
    apply byte_eqb_eq in Hc as ->.
    assert (startswith lf_lf_lb (LF :: s) = startswith lf_lb s) as Heq by done.
    congruence.
Qed.

(** The other direction: two line breaks before [<lb] leave one. *)
Lemma drop_length s : (length (drop_lf_before_lb s) ≤ length s)%nat.
Proof.
  induction s as [|c s IH]; [done|]. cbn [drop_lf_before_lb].
  destruct (_ && _); simpl; lia.
Qed.

Lemma drop_fixed s :
  drop_lf_before_lb s = s → contains_bytes s lf_lb = false.
Proof.
  induction s as [|c s IH]; [done|]. cbn [drop_lf_before_lb contains_bytes].
  rewrite startswith_lf_lb.
  destruct (Byte.eqb c LF && startswith lb s) eqn:Hs.
  - intros Heq. pose proof (drop_length s) as Hlen. rewrite Heq in Hlen.
    simpl in Hlen. lia.
  - intros [= Heq]. simpl. by apply IH.
Qed.

Lemma drop_keeps_one s :
  contains_bytes s lf_lf_lb = true →
  contains_bytes (drop_lf_before_lb s) lf_lb = true.
Proof.
  induction s as [|c s IH]; [done|]. cbn [contains_bytes drop_lf_before_lb].
  destruct (startswith lf_lf_lb (c :: s)) eqn:Hhere.
  - intros _. apply startswith_spec in Hhere as [r [= -> ->]]. reflexivity.
  - cbn [orb]. intros Hin. specialize (IH Hin).
    destruct (Byte.eqb c LF && startswith lb s); [done|].
    cbn [contains_bytes]. rewrite IH. apply orb_true_r.
Qed.

Lemma startswith_lb_app_gt pre rest :
  startswith lb (pre ++ ">"%byte :: rest) = startswith lb pre.
Proof.
  destruct pre as [|c1 [|c2 [|c3 pre]]]; cbn [startswith app lb];
    rewrite ?andb_false_r; done.
Qed.

Lemma drop_app_gt pre rest :
  drop_lf_before_lb (pre ++ ">"%byte :: rest)
  = drop_lf_before_lb pre ++ ">"%byte :: drop_lf_before_lb rest.
Proof.
  induction pre as [|c pre IH]; [done|].
  rewrite <- app_comm_cons. cbn [drop_lf_before_lb].
  rewrite startswith_lb_app_gt, IH. by destruct (_ && _).
Qed.

End BytesFacts.

(* ===================================================================== *)
(** * Facts about the file names                                        *)
(* ===================================================================== *)

Module NameFacts.
Import Py Splitter.

Lemma append_assoc (s1 s2 s3 : string) :
  (s1 +:+ s2) +:+ s3 = s1 +:+ (s2 +:+ s3).
Proof.
  induction s1 as [|c s1 IH]; [done|].
  change (String c ((s1 +:+ s2) +:+ s3) = String c (s1 +:+ (s2 +:+ s3))).
  by rewrite IH.
Qed.

Lemma length_range a b : length (range a b) = Z.to_nat (b - a).
Proof. apply length_seqZ. Qed.

Lemma format_03d_nonneg n :
  0 ≤ n →
  format_03d n
  = String.concat EmptyString
      (replicate (3 - String.length (str n)) "0"%string) +:+ str n.
Proof. intros Hn. unfold format_03d. by rewrite (proj2 (Z.ltb_ge n 0)). Qed.

Lemma format_03d_width n :
  0 ≤ n ≤ 999 → String.length (format_03d n) = 3%nat.
Proof.
  intros Hn.
  assert (Forall (λ k, String.length (format_03d k) = 3%nat) (seqZ 0 1000)) as Hall.
  { apply (bool_decide_unpack _). by vm_compute. }
  rewrite Forall_seqZ in Hall. apply Hall. lia.
Qed.

End NameFacts.

(* ===================================================================== *)
(** * Facts about runs                                                  *)
(* ===================================================================== *)

Module RunFacts.
Import Py Etree Trees Splitter Sys Main.

Section Run.
Variable os : platform.

Ltac run :=
  unfold mbind, cmd_bind, mret, cmd_ret, raise, exit, print in *.

Lemma bind_value {A B} (m : cmd A) (f : A → cmd B) w a w' :
  m w = (Value a, w') → (m ≫= f) w = f a w'.
Proof. unfold mbind, cmd_bind. by intros ->. Qed.

Lemma bind_raised {A B} (m : cmd A) (f : A → cmd B) w e w' :
  m w = (Raised e, w') → (m ≫= f) w = (Raised e, w').
Proof. unfold mbind, cmd_bind. by intros ->. Qed.

Lemma bind_exited {A B} (m : cmd A) (f : A → cmd B) w w' :
  m w = (Exited, w') → (m ≫= f) w = (Exited, w').
Proof. unfold mbind, cmd_bind. by intros ->. Qed.

Lemma bind_assoc {A B C} (m : cmd A) (f : A → cmd B) (g : B → cmd C) w :
  ((m ≫= f) ≫= g) w = (m ≫= λ a, f a ≫= g) w.
Proof. unfold mbind, cmd_bind. by destruct (m w) as [[a|e|] w']. Qed.

(** Reading and parsing leave the world as it is. *)
Lemma read_file_world path w r w' : read_file os path w = (r, w') → w' = w.
Proof.
  unfold read_file. destruct (files w !! path); [destruct (decide _)|];
    by intros [= _ <-].
Qed.

Lemma etree_parse_world path w r w' : etree_parse os path w = (r, w') → w' = w.
Proof.
  unfold etree_parse. run.
  destruct (read_file os path w) as [[b|e|] w1] eqn:Hr;
    apply read_file_world in Hr as ->.
  - destruct (fromstring os b); by intros [= _ <-].
  - by intros [= _ <-].
  - by intros [= _ <-].
Qed.

(** What [etree.parse] can do. *)
Lemma etree_parse_cases path w :
  (∃ b t, files w !! path = Some b ∧ (path ∉ unreadable w)
          ∧ fromstring os b = Some t
          ∧ etree_parse os path w = (Value (getroot t), w))
  ∨ (∃ b, files w !! path = Some b ∧ (path ∉ unreadable w)
          ∧ fromstring os b = None
          ∧ etree_parse os path w = (Raised XMLSyntaxError, w))
  ∨ ((files w !! path = None ∨ path ∈ unreadable w)
     ∧ etree_parse os path w = (Raised (OSError (strerror os path)), w)).
Proof.
  unfold etree_parse, read_file. run.
  destruct (files w !! path) as [b|] eqn:Hf; [|right; right; auto].
  destruct (decide (path ∈ unreadable w)); [right; right; auto|].
  destruct (fromstring os b) as [t|] eqn:Hp.
  - left. exists b, t. by rewrite Hp.
  - right. left. exists b. by rewrite Hp.
Qed.


Lemma parse_xml_cases path w :
  (∃ b t, files w !! path = Some b ∧ (path ∉ unreadable w)
          ∧ fromstring os b = Some t
          ∧ parse_xml os path w = (Value (Some (getroot t)), w))
  ∨ (∃ b, files w !! path = Some b ∧ (path ∉ unreadable w)
          ∧ fromstring os b = None
          ∧ parse_xml os path w = (Raised XMLSyntaxError, w))
  ∨ ((files w !! path = None ∨ path ∈ unreadable w)
     ∧ parse_xml os path w = (Value None, reported os path w)).
Proof.
  unfold parse_xml, try_except_IOError.
  destruct (etree_parse_cases path w)
    as [(b & t & ? & ? & ? & He)|[(b & ? & ? & ? & He)|[? He]]].
  - left. exists b, t. split_and!; [done..|]. by rewrite (bind_value _ _ _ _ _ He).
  - right. left. exists b. split_and!; [done..|]. by rewrite (bind_raised _ _ _ _ _ He).
  - right. right. split; [done|]. by rewrite (bind_raised _ _ _ _ _ He).
Qed.

Lemma main_split c w :
  main os c w
  = (root ← parse_xml os (file_path c);
     match root with
     | None => exit
     | Some root =>
         write_outputs os c (build c root);;
         os_remove os (output_file_path (year_of_volume c) (facs_start c)
                         (facs_stop c))
     end) w.
Proof.
  unfold main, write_outputs. run.
  destruct (parse_xml os (file_path c) w) as [[[root|]|e|] w0]; try done.
  repeat (match goal with
          | |- context [match ?m ?x with _ => _ end] =>
              lazymatch m with
              | save_xml_to_file _ _ _ => destruct (m x) as [[[]|?|] ?]
              | etree_parse _ _ => destruct (m x) as [[?|?|] ?]
              | transform_xml _ _ _ => destruct (m x) as [[?|?|] ?]
              | write_file _ _ _ => destruct (m x) as [[[]|?|] ?]
              end
          end; try done).
Qed.


(** What a successful output stage leaves behind. *)
Lemma write_outputs_value c doc w w1 :
  write_outputs os c doc w = (Value tt, w1) →
  (∃ t, files w1 !! transformed_output_path (year_of_volume c) (facs_start c)
                      (facs_stop c)
        = Some (clean_transformed_xml os t))
  ∧ last (stdout w1)
    = Some ("The transformed XML has been saved to "
            +:+ transformed_output_path (year_of_volume c) (facs_start c)
                  (facs_stop c)).
Proof.
  unfold write_outputs. run.
  destruct (save_xml_to_file _ _ _ _) as [[[]|?|] w2]; [|done..].
  destruct (etree_parse _ _ _) as [[orig|?|] w3]; [|done..].
  destruct (transform_xml _ _ _ _) as [[t|?|] w4]; [|done..].
  unfold write_file. destruct (decide _); [done|].
  intros [= <-]. simpl. split.
  - exists t. apply lookup_insert_eq.
  - apply last_snoc.
Qed.

Lemma write_file_stdout path b w :
  stdout (write_file os path b w).2 = stdout w.
Proof. unfold write_file. by destruct (decide _). Qed.

Lemma os_remove_raised path w e w' :
  os_remove os path w = (Raised e, w') → w' = w.
Proof.
  unfold os_remove. destruct (files w !! path); [destruct (decide _)|];
    by intros [= _ <-].
Qed.

(** The intermediate write warns about an existing file and goes on. *)
Lemma save_xml_to_file_warns path xml_string w :
  is_Some (files w !! path) → path ∉ unwritable w →
  save_xml_to_file os path xml_string w
  = (Value tt,
     World (<[path := list_byte_of_string xml_string]> (files w))
       (unreadable w) (unwritable w) (undeletable w)
       (stdout w
        ++ ["Warning: " +:+ path +:+ " already exists. It will be overwritten.";
            "The original XML output has been saved to " +:+ path])).
Proof.
  intros Hex Hw. unfold save_xml_to_file, os_path_exists, write_file. run.
  rewrite bool_decide_eq_true_2 by done. simpl.
  destruct (decide _); [done|]. unfold with_files. simpl.
  by rewrite <- (assoc (++)).
Qed.

End Run.
End RunFacts.

(* ===================================================================== *)
(** * More facts about strings and file names                           *)
(* ===================================================================== *)

Module StringFacts.
Import Py Splitter TreeFacts NameFacts.

Lemma append_cons c (s t : string) : String c s +:+ t = String c (s +:+ t).
Proof. done. Qed.

Lemma length_append (s t : string) :
  String.length (s +:+ t) = (String.length s + String.length t)%nat.
Proof.
  induction s as [|c s IH]; [done|]. rewrite append_cons. simpl. by rewrite IH.
Qed.

Lemma append_inj_r (t : string) : ∀ s1 s2, s1 +:+ t = s2 +:+ t → s1 = s2.
Proof.
  induction s1 as [|c s1 IH]; intros [|c2 s2] Heq; [done|..].
  - apply (f_equal String.length) in Heq.
    rewrite !length_append in Heq. simpl in Heq. lia.
  - apply (f_equal String.length) in Heq.
    rewrite !length_append in Heq. simpl in Heq. lia.
  - rewrite !append_cons in Heq. injection Heq as -> Heq. f_equal. by apply IH.
Qed.

Lemma has_char_append c (s t : string) :
  has_char c (s +:+ t) = has_char c s || has_char c t.
Proof.
  induction s as [|x s IH]; [done|]. rewrite append_cons. simpl.
  by rewrite IH, orb_assoc.
Qed.

(** Decimal numerals hold digits only. *)
Lemma uint_chars c u :
  is_digit c = false → has_char c (NilEmpty.string_of_uint u) = false.
Proof.
  intros Hc.
  assert (∀ d, is_digit d = true → Ascii.eqb d c = false) as Hne.
  { intros d Hd. destruct (Ascii.eqb d c) eqn:E; [|done].
    apply Ascii.eqb_eq in E as ->. congruence. }
  induction u; cbn [has_char NilEmpty.string_of_uint]; [done|..];
    rewrite IHu, Hne; done.
Qed.

Lemma str_chars c n :
  is_digit c = false → c ≠ "-"%char → has_char c (str n) = false.
Proof.
  intros Hc Hdash.
  assert (has_char c "0" = false) as H0.
  { cbn [has_char]. destruct (Ascii.eqb "0" c) eqn:E; [|done].
    apply Ascii.eqb_eq in E as <-. done. }
  assert (∀ u, has_char c (NilZero.string_of_uint u) = false) as Hu.
  { intros u. unfold NilZero.string_of_uint.
    destruct u; [done|..]; by apply uint_chars. }
  unfold str. destruct n as [|p|p]; cbn [Z.to_int NilZero.string_of_int];
    [done|apply Hu|].
  cbn [has_char]. rewrite Hu. destruct (Ascii.eqb "-" c) eqn:E; [|done].
  by apply Ascii.eqb_eq in E.
Qed.

Lemma str_nonneg_chars c n :
  0 ≤ n → is_digit c = false → has_char c (str n) = false.
Proof.
  intros Hn Hc.
  assert (has_char c "0" = false) as H0.
  { cbn [has_char]. destruct (Ascii.eqb "0" c) eqn:E; [|done].
    apply Ascii.eqb_eq in E as <-. done. }
  unfold str. destruct n as [|p|p]; [done| |lia].
  cbn [Z.to_int NilZero.string_of_int]. unfold NilZero.string_of_uint.
  destruct (Pos.to_uint p); [done|by apply uint_chars..].
Qed.

(** ** Prefixes *)

Lemma prefix_append (a t u : string) :
  String.prefix (a +:+ t) (a +:+ u) = String.prefix t u.
Proof.
  induction a as [|x a IH]; [done|]. rewrite !append_cons. simpl.
  by destruct (ascii_dec x x).
Qed.

Lemma prefix_nil (s : string) : String.prefix EmptyString s = true.
Proof. by destruct s. Qed.

(** Two separator-free words followed by the separator: one is a prefix of
    the other only if the words are equal. *)
Lemma prefix_word c (u : string) : ∀ s1 s2,
  has_char c s1 = false → has_char c s2 = false →
  String.prefix (s1 +:+ String c EmptyString) (s2 +:+ String c u) = true →
  s1 = s2.
Proof.
  induction s1 as [|x s1 IH]; intros [|y s2] H1 H2; try done.
  - cbn [has_char] in H2. apply orb_false_iff in H2 as [Hy _].
    change (String.prefix (String c EmptyString)
              (String y (s2 +:+ String c u)) = true
            → EmptyString = String y s2).
    cbn [String.prefix]. destruct (ascii_dec c y) as [<-|]; [|done].
    by rewrite Ascii.eqb_refl in Hy.
  - cbn [has_char] in H1. apply orb_false_iff in H1 as [Hx _].
    change (String.prefix (String x (s1 +:+ String c EmptyString))
              (String c u) = true
            → String x s1 = EmptyString).
    cbn [String.prefix]. destruct (ascii_dec x c) as [->|]; [|done].
    by rewrite Ascii.eqb_refl in Hx.
  - cbn [has_char] in H1, H2.
    apply orb_false_iff in H1 as [_ H1], H2 as [_ H2].
    change (String.prefix (String x (s1 +:+ String c EmptyString))
              (String y (s2 +:+ String c u)) = true
            → String x s1 = String y s2).
    cbn [String.prefix]. destruct (ascii_dec x y) as [->|]; [|done].
    intros Hp. f_equal. by apply IH.
Qed.

(** A needle that starts with a character the text does not hold. *)
Lemma contains_absent c (needle s : string) :
  has_char c s = false → contains s (String c needle) = false.
Proof.
  induction s as [|x s IH]; [done|]. cbn [has_char contains String.prefix].
  intros [Hx Hs]%orb_false_iff.
  destruct (ascii_dec c x) as [->|]; [by rewrite Ascii.eqb_refl in Hx|].
  by apply IH.
Qed.

(** ** Endings *)

Lemma ends_in_digit_prepend t s : ends_in_digit s → ends_in_digit (t +:+ s).
Proof.
  intros (g & d & -> & Hd). exists (t +:+ g), d.
  by rewrite append_assoc.
Qed.

Lemma uint_ends_in_digit u :
  u ≠ Decimal.Nil → ends_in_digit (NilEmpty.string_of_uint u).
Proof.
  assert (∀ c v, (v ≠ Decimal.Nil → ends_in_digit (NilEmpty.string_of_uint v)) →
                 is_digit c = true →
                 ends_in_digit (String c (NilEmpty.string_of_uint v))) as Hstep.
  { intros c v IH Hc. destruct v as [|v|v|v|v|v|v|v|v|v|v];
      [by exists EmptyString, c|..];
      apply (ends_in_digit_prepend (String c EmptyString)), IH; done. }
  induction u as [|u IH|u IH|u IH|u IH|u IH|u IH|u IH|u IH|u IH|u IH];
    [done|..]; intros _; simpl; by apply Hstep.
Qed.

Lemma nilzero_ends_in_digit u : ends_in_digit (NilZero.string_of_uint u).
Proof.
  unfold NilZero.string_of_uint.
  destruct u; [by exists EmptyString, "0"%char|..];
    by apply uint_ends_in_digit.
Qed.

Lemma str_ends_in_digit n : ends_in_digit (str n).
Proof.
  unfold str. destruct n as [|p|p]; simpl.
  - by exists EmptyString, "0"%char.
  - apply nilzero_ends_in_digit.
  - apply (ends_in_digit_prepend "-"), nilzero_ends_in_digit.
Qed.

Lemma format_03d_ends_in_digit n : ends_in_digit (format_03d n).
Proof.
  unfold format_03d, zfill. destruct (n <? 0).
  - apply (ends_in_digit_prepend "-"), ends_in_digit_prepend, str_ends_in_digit.
  - apply ends_in_digit_prepend, str_ends_in_digit.
Qed.

Lemma formatted_range_str_ends_in_digit a b :
  ends_in_digit (formatted_range_str a b).
Proof.
  unfold formatted_range_str. destruct (1 <? b - a).
  - apply ends_in_digit_prepend, (ends_in_digit_prepend "-"),
      format_03d_ends_in_digit.
  - apply format_03d_ends_in_digit.
Qed.

(** The character five places before the end. *)
Lemma fifth_from_end (p q : string) c c' (t : string) :
  String.length t = 4%nat →
  p +:+ String c t = q +:+ String c' t → c = c'.
Proof.
  intros Ht Heq.
  assert (String.length p = String.length q) as Hlen.
  { apply (f_equal String.length) in Heq. rewrite !length_append in Heq.
    simpl in Heq. lia. }
  pose proof (append_correct2 p (String c t) 0) as H1.
  pose proof (append_correct2 q (String c' t) 0) as H2.
  simpl in H1, H2. rewrite Heq, Hlen in H1. congruence.
Qed.

Lemma paths_differ y y' a b a' b' :
  output_file_path y a b ≠ transformed_output_path y' a' b'.
Proof.
  unfold output_file_path, transformed_output_path.
  destruct (formatted_range_str_ends_in_digit a' b') as (g & d & -> & Hd).
  intros Heq.
  assert (d = "e"%char) as ->; [|done].
  symmetry.
  apply (fifth_from_end ("output/" +:+ y +:+ "_" +:+ range_str a b +:+ "_befor")
           ("output/" +:+ y' +:+ "_" +:+ g) _ _ ".xml"); [done|].
  rewrite !append_assoc. rewrite !append_assoc in Heq. exact Heq.
Qed.

(** ** Numerals with leading zeros *)

Lemma zeros_uint k u :
  u ≠ Decimal.Nil →
  String.concat EmptyString (replicate k "0"%string)
    +:+ NilEmpty.string_of_uint u
  = NilEmpty.string_of_uint (Nat.iter k Decimal.D0 u).
Proof.
  intros Hu. induction k as [|k IH]; [done|].
  change (Nat.iter (S k) Decimal.D0 u) with (Decimal.D0 (Nat.iter k Decimal.D0 u)).
  cbn [NilEmpty.string_of_uint]. rewrite <- IH. by destruct k.
Qed.

Lemma iter_D0_nonnil k u : u ≠ Decimal.Nil → Nat.iter k Decimal.D0 u ≠ Decimal.Nil.
Proof. by destruct k. Qed.

Lemma of_uint_zeros k u :
  Z.of_uint (Nat.iter k Decimal.D0 u) = Z.of_uint u.
Proof. induction k as [|k IH]; [done|]. simpl. exact IH. Qed.

(** [format(n, '03d')] is a decimal numeral of [n]. *)
Lemma format_03d_decimal n :
  ∃ d, format_03d n = NilZero.string_of_int d ∧ Z.of_int d = n
       ∧ d ≠ Decimal.Pos Decimal.Nil ∧ d ≠ Decimal.Neg Decimal.Nil.
Proof.
  assert (∀ p k,
    String.concat EmptyString (replicate k "0"%string)
      +:+ NilZero.string_of_uint (Pos.to_uint p)
    = NilZero.string_of_uint (Nat.iter k Decimal.D0 (Pos.to_uint p))
    ∧ Nat.iter k Decimal.D0 (Pos.to_uint p) ≠ Decimal.Nil
    ∧ Z.of_uint (Nat.iter k Decimal.D0 (Pos.to_uint p)) = Z.pos p) as Hpos.
  { intros p k. pose proof (Unsigned.to_uint_nonnil p) as Hp.
    pose proof (iter_D0_nonnil k _ Hp) as Hk.
    split_and!; [|done|].
    - unfold NilZero.string_of_uint.
      destruct (Pos.to_uint p) eqn:E; [done|..]; rewrite <- E in *;
        (destruct (Nat.iter k Decimal.D0 (Pos.to_uint p)) eqn:E2; [done|..];
         rewrite <- E2; by apply zeros_uint).
    - rewrite of_uint_zeros. unfold Z.of_uint.
      by rewrite Unsigned.of_to. }
  unfold format_03d, zfill, str. destruct n as [|p|p].
  - exists (Decimal.Pos (Decimal.D0 (Decimal.D0 (Decimal.D0 Decimal.Nil)))).
    by vm_compute.
  - simpl (Z.pos p <? 0). cbn [Z.to_int NilZero.string_of_int].
    destruct (Hpos p (3 - String.length (NilZero.string_of_uint (Pos.to_uint p)))%nat)
      as (Heq & Hnn & Hval).
    eexists (Decimal.Pos _). cbn [NilZero.string_of_int Z.of_int].
    split_and!; [exact Heq|exact Hval| |done].
    intros [= H]. by apply Hnn.
  - simpl (Z.neg p <? 0). cbn [Z.opp Z.to_int NilZero.string_of_int].
    destruct (Hpos p (2 - String.length (NilZero.string_of_uint (Pos.to_uint p)))%nat)
      as (Heq & Hnn & Hval).
    eexists (Decimal.Neg _). cbn [NilZero.string_of_int Z.of_int].
    split_and!; [by rewrite <- Heq| |done|].
    + rewrite Hval. done.
    + intros [= H]. by apply Hnn.
Qed.

Lemma format_03d_inj n m : format_03d n = format_03d m → n = m.
Proof.
  destruct (format_03d_decimal n) as (d & -> & <- & Hd1 & Hd2).
  destruct (format_03d_decimal m) as (d' & -> & <- & Hd1' & Hd2').
  intros Heq. f_equal.
  assert (Some d = Some d') as [= ->]; [|done].
  rewrite <- (NilZero.isi d), <- (NilZero.isi d') by done. by rewrite Heq.
Qed.

Lemma zeros_chars c k :
  c ≠ "0"%char →
  has_char c (String.concat EmptyString (replicate k "0"%string)) = false.
Proof.
  intros Hc.
  assert (Ascii.eqb "0" c = false) as H0.
  { destruct (Ascii.eqb "0" c) eqn:E; [|done]. by apply Ascii.eqb_eq in E. }
  induction k as [|k IH]; [done|].
  destruct k as [|k]; [cbn [replicate String.concat has_char]; by rewrite H0|].
  change (String.concat EmptyString (replicate (S (S k)) "0"%string))
    with (String "0" (String.concat EmptyString (replicate (S k) "0"%string))).
  cbn [has_char]. by rewrite H0, IH.
Qed.

Lemma format_03d_nonneg_chars c n :
  0 ≤ n → is_digit c = false → has_char c (format_03d n) = false.
Proof.
  intros Hn Hc. unfold format_03d. rewrite (proj2 (Z.ltb_ge n 0)) by done.
  unfold zfill. rewrite has_char_append, str_nonneg_chars by done.
  rewrite zeros_chars; [done|]. by intros ->.
Qed.

(** Cutting at the first separator. *)
Lemma split_at_char c (t1 t2 : string) : ∀ s1 s2,
  has_char c s1 = false → has_char c s2 = false →
  s1 +:+ String c t1 = s2 +:+ String c t2 → s1 = s2 ∧ t1 = t2.
Proof.
  induction s1 as [|x s1 IH]; intros [|y s2] H1 H2.
  - by intros [= ->].
  - cbn [has_char] in H2. apply orb_false_iff in H2 as [Hy _].
    rewrite append_cons. intros [= <- _]. by rewrite Ascii.eqb_refl in Hy.
  - cbn [has_char] in H1. apply orb_false_iff in H1 as [Hx _].
    rewrite append_cons. intros [= -> _]. by rewrite Ascii.eqb_refl in Hx.
  - cbn [has_char] in H1, H2.
    apply orb_false_iff in H1 as [_ H1], H2 as [_ H2].
    rewrite !append_cons. intros [= -> Heq].
    destruct (IH s2 H1 H2 Heq) as [-> ->]. done.
Qed.

(** The range part of a file name tells the range, whichever of the two
    number formats [f] writes it. *)
Lemma range_part_inj (f : Z → string) a b a' b' :
  (∀ n m, f n = f m → n = m) →
  (∀ n, 0 ≤ n → has_char "-" (f n) = false) →
  0 ≤ a < b → 0 ≤ a' < b' →
  (if 1 <? b - a then f a +:+ "-" +:+ f (b - 1) else f a)
  = (if 1 <? b' - a' then f a' +:+ "-" +:+ f (b' - 1) else f a') →
  a = a' ∧ b = b'.
Proof.
  intros Hinj Hdash Ha Ha'.
  destruct (Z.ltb_spec 1 (b - a)), (Z.ltb_spec 1 (b' - a')).
  - intros Heq.
    apply (split_at_char "-") in Heq as [H1 H2]; [|by apply Hdash; lia..].
    apply Hinj in H1, H2. lia.
  - intros Heq. assert (has_char "-" (f a') = true) as Hc.
    { rewrite <- Heq, has_char_append. cbn [has_char]. simpl.
      apply orb_true_r. }
    rewrite Hdash in Hc by lia. done.
  - intros Heq. assert (has_char "-" (f a) = true) as Hc.
    { rewrite Heq, has_char_append. cbn [has_char]. simpl.
      apply orb_true_r. }
    rewrite Hdash in Hc by lia. done.
  - intros Heq%Hinj. lia.
Qed.

End StringFacts.

(* ===================================================================== *)
(** * More facts about the trees                                        *)
(* ===================================================================== *)

Module MoreTreeFacts.
Import Py Etree Trees Splitter TreeFacts StringFacts.

(** The nodes of the three trees after a page step. *)
Lemma page_step_labels st n :
  inv st →
  label <$> nodes (forest (page_step st n))
  ≡ₚ (label <$> nodes (forest st)) ++ [label (pb n)].
Proof.
  intros Hinv.
  assert (inv (attach Div (pb n) st)) as Hinv1 by by apply inv_attach_built.
  rewrite page_step_eq.
  assert (∀ (P : element → Prop) `{∀ e, Decision (P e)},
    page_content n (root st) = findall P (root st) →
    label <$> nodes (forest (append_all Div (page_content n (root st))
                               (attach Div (pb n) st)))
    ≡ₚ label <$> nodes (forest (attach Div (pb n) st))) as Hgen.
  { intros P ? ->.
    apply (append_all_spec Div (findall P (root (attach Div (pb n) st)))
             (attach Div (pb n) st)).
    - apply Hinv1.
    - by apply findall_parsed.
    - by apply findall_NoDup.
    - apply findall_live.
    - by apply findall_fresh_top. }
  assert (label <$> nodes (forest (attach Div (pb n) st))
          ≡ₚ (label <$> nodes (forest st)) ++ [label (pb n)]) as Hpb.
  { by rewrite forest_attach, fmap_app. }
  destruct (page_content_cases n (root st)) as [Hc|Hc];
    rewrite (Hgen _ _ Hc); exact Hpb.
Qed.

Lemma page_loop_labels pages : ∀ st,
  inv st →
  label <$> nodes (forest (page_loop st pages))
  ≡ₚ (label <$> nodes (forest st)) ++ (label ∘ pb <$> pages).
Proof.
  induction pages as [|n pages IH]; intros st Hinv.
  { simpl. by rewrite app_nil_r. }
  change (page_loop st (n :: pages)) with (page_loop (page_step st n) pages).
  rewrite IH by by apply page_step_spec.
  rewrite page_step_labels by done. rewrite <- (assoc (++)). done.
Qed.

Lemma facsimile_loop_labels st pages :
  inv st → NoDup pages →
  label <$> nodes (forest (append_all Facsimile
                             (extract_surface_elements (root st) pages) st))
  ≡ₚ label <$> nodes (forest st).
Proof.
  intros Hinv Hpages.
  assert (∀ x, x ∈ extract_surface_elements (root st) pages →
               ∃ n, x ∈ findall (is_surface n) (root st)) as Hsome.
  { intros x (n & Hx & _)%list_elem_of_bind. eauto. }
  apply (append_all_spec Facsimile).
  - apply Hinv.
  - apply Forall_forall. intros x [n Hx]%Hsome.
    pose proof (findall_parsed (is_surface n) st Hinv) as Hpar.
    rewrite Forall_forall in Hpar. by apply Hpar.
  - by apply surfaces_distinct.
  - intros x [n Hx]%Hsome. apply (findall_live (is_surface n) st x Hx).
  - intros x [n Hx]%Hsome.
    apply (findall_fresh_top (is_surface n) st Hinv _ x Hx).
Qed.

Lemma tables_distinct st pages :
  inv st → NoDup pages →
  NoDup (uid <$> extract_table_elements (root st) pages).
Proof.
  intros Hinv Hpages.
  pose proof (descendants_NoDup st Hinv) as Hnd.
  apply NoDup_fmap_2_strong.
  - intros x y Hx Hy Huid.
    assert (∀ z, z ∈ extract_table_elements (root st) pages →
                 z ∈ descendants (root st)) as Hdesc.
    { intros z (n & Hz & _)%list_elem_of_bind. by eapply findall_descendant. }
    apply Hdesc in Hx, Hy.
    apply list_elem_of_lookup in Hx as [ix Hix].
    apply list_elem_of_lookup in Hy as [iy Hiy].
    assert (ix = iy) as ->; [|congruence].
    eapply NoDup_lookup; [exact Hnd|..]; rewrite list_lookup_fmap.
    + by rewrite Hix.
    + by rewrite Hiy, Huid.
  - unfold extract_table_elements. apply NoDup_bind; [| |done].
    + intros n1 n2 y _ _ [[_ H1] _]%list_elem_of_filter
        [[_ H2] _]%list_elem_of_filter.
      rewrite H1 in H2. injection H2 as H2.
      apply str_inj. by apply (append_inj_r "_t1").
    + intros n _. apply NoDup_filter. by apply (NoDup_fmap_1 uid).
Qed.

(** The page loop with nothing to find. *)
Lemma page_loop_nothing r fac pages : ∀ d,
  (∀ n, n ∈ pages →
        findall (is_table n) r = [] ∧ findall (is_ab n) r = []) →
  page_loop (Build r fac d) pages = Build r fac (d ++ (pb <$> pages)).
Proof.
  induction pages as [|n pages IH]; intros d Hnone.
  { simpl. by rewrite app_nil_r. }
  change (page_loop ?st (n :: pages)) with (page_loop (page_step st n) pages).
  destruct (Hnone n) as [Ht Ha]; [left|].
  assert (page_step (Build r fac d) n = Build r fac (d ++ [pb n])) as ->.
  { unfold page_step. cbn [attach root facsimile div]. by rewrite Ht, Ha. }
  rewrite IH.
  - by rewrite fmap_cons, <- (assoc (++)).
  - intros m Hm. apply Hnone. by right.
Qed.

Lemma page_loop_selected R all pages : ∀ st,
  pages ⊆ all →
  inv st →
  label <$> descendants (root st) `sublist_of` label <$> descendants R →
  Forall (selected_from R all) (label <$> div st) →
  Forall (selected_from R all) (label <$> div (page_loop st pages)).
Proof.
  induction pages as [|n pages IH]; intros st Hsub Hinv Hroot Hdiv; [done|].
  change (page_loop st (n :: pages)) with (page_loop (page_step st n) pages).
  destruct (page_step_spec st n Hinv) as (Hinv1 & Hdiv1 & Hsub1 & _).
  assert (n ∈ all) as Hn by (apply Hsub; left).
  apply IH; [|done|by etrans|].
  { intros m Hm. apply Hsub. by right. }
  rewrite Hdiv1. apply Forall_app. split; [done|]. constructor.
  { left. eauto. }
  apply Forall_fmap, Forall_forall. intros x Hx. right.
  assert (x ∈ descendants (root st) ∧ (is_table n x ∨ is_ab n x)) as [Hd HP].
  { destruct (page_content_cases n (root st)) as [Hc|Hc]; rewrite Hc in Hx;
      apply list_elem_of_filter in Hx as [? ?]; auto. }
  apply (list_elem_of_fmap_2 label) in Hd.
  apply (sublist_subseteq _ _ Hroot) in Hd.
  apply list_elem_of_fmap in Hd as (y & Hlab & Hy).
  exists y, n. split_and!; [done|done|done|].
  destruct HP as [HP|HP]; [left; by apply (is_table_label n x)
                          |right; by apply (is_ab_label n x)].
Qed.

Lemma page_breaks_of_assemble doc a b :
  filter (λ e, tag e = "pb"%string) (div (assemble (getroot doc) (range a b)))
  = pb <$> range a b.
Proof.
  unfold assemble.
  destruct (inv_surfaces doc (range a b) (NoDup_seqZ _ _)) as (Hinv0 & Hdiv0 & _).
  set (st0 := append_all Facsimile _ _) in *.
  apply page_breaks_of_labels.
  - apply leaves_built_page_loop; [done|]. rewrite Hdiv0. constructor.
  - destruct (page_loop_spec (range a b) st0 Hinv0)
      as (_ & _ & _ & _ & rest & Hdiv & _ & Hpb).
    rewrite Hdiv, Hdiv0. done.
Qed.

Lemma pb_id_inj n m : get (pb n) xml_id = get (pb m) xml_id → n = m.
Proof.
  intros Heq. apply str_inj.
  assert (∀ k, get (pb k) xml_id = Some ("img_00" +:+ str k)) as Hget by done.
  rewrite !Hget in Heq. injection Heq as Heq. done.
Qed.

End MoreTreeFacts.

(* ===================================================================== *)
(** * More facts about the fix-up                                       *)
(* ===================================================================== *)

Module MoreBytesFacts.
Import Py Splitter BytesFacts.

Lemma drop_absent s :
  contains_bytes s lf_lb = false → drop_lf_before_lb s = s.
Proof.
  induction s as [|c s IH]; [done|].
  intros [Hhere Hno]%contains_bytes_cons.
  cbn [drop_lf_before_lb]. rewrite startswith_lf_lb in Hhere.
  rewrite Hhere. f_equal. by apply IH.
Qed.

Lemma drop_sublist s : drop_lf_before_lb s `sublist_of` s.
Proof.
  induction s as [|c s IH]; [done|]. cbn [drop_lf_before_lb].
  destruct (_ && _); [by apply sublist_cons|by apply sublist_skip].
Qed.

Lemma drop_keeps_other_bytes (s : list byte) :
  filter (λ c, Byte.eqb c LF = false) (drop_lf_before_lb s : list byte)
  = filter (λ c, Byte.eqb c LF = false) s.
Proof.
  induction s as [|c s IH]; [done|]. cbn [drop_lf_before_lb].
  destruct (Byte.eqb c LF && startswith lb s) eqn:Hs.
  - apply andb_true_iff in Hs as [->%byte_eqb_eq _].
    by rewrite filter_cons_False.
  - rewrite !(filter_cons _ c). by rewrite IH.
Qed.

End MoreBytesFacts.

(* ===================================================================== *)
(** * More facts about runs                                             *)
(* ===================================================================== *)

Module MoreRunFacts.
Import Py Etree Trees Splitter Sys Main RunFacts StringFacts.

Section Run.
Variable os : platform.

Lemma extends_refl ps w : extends ps w w.
Proof. by repeat split. Qed.

Lemma extends_trans ps w1 w2 w3 :
  extends ps w1 w2 → extends ps w2 w3 → extends ps w1 w3.
Proof.
  intros (? & ? & ? & Hf1 & ?) (? & ? & ? & Hf2 & ?).
  split_and!; [congruence..| |by etrans].
  intros p Hp. by rewrite Hf2, Hf1.
Qed.

Lemma extends_mono ps qs w w' : ps ⊆ qs → extends ps w w' → extends qs w w'.
Proof.
  intros Hsub (? & ? & ? & Hf & ?). split_and!; [done..| |done].
  intros p Hp. apply Hf. intros Hin. apply Hp, Hsub, Hin.
Qed.

Lemma within_bind {A B} ps (m : cmd A) (f : A → cmd B) :
  within ps m → (∀ a, within ps (f a)) → within ps (m ≫= f).
Proof.
  intros Hm Hf w r w'. unfold mbind, cmd_bind.
  destruct (m w) as [[a|e|] w1] eqn:Hmw.
  - intros Hfa. eapply extends_trans; [by eapply Hm|by eapply Hf].
  - intros [= <- <-]. by eapply Hm.
  - intros [= <- <-]. by eapply Hm.
Qed.

Lemma within_mono {A} ps qs (m : cmd A) : ps ⊆ qs → within ps m → within qs m.
Proof. intros Hsub Hm w r w' Hr. eapply extends_mono; [done|by eapply Hm]. Qed.

Lemma within_ret {A} ps (a : A) : within ps (mret a).
Proof. intros w r w' [= <- <-]. apply extends_refl. Qed.

Lemma within_raise {A} ps e : within ps (raise (A:=A) e).
Proof. intros w r w' [= <- <-]. apply extends_refl. Qed.

Lemma within_exit {A} ps : within ps (exit (A:=A)).
Proof. intros w r w' [= <- <-]. apply extends_refl. Qed.

Lemma within_print ps line : within ps (print line).
Proof.
  intros w r w' [= <- <-]. split_and!; [done..|]. simpl.
  by apply prefix_app_r.
Qed.

Lemma within_etree_parse ps path : within ps (etree_parse os path).
Proof.
  intros w r w' Hr. apply etree_parse_world in Hr as ->. apply extends_refl.
Qed.

Lemma within_write_file path b : within [path] (write_file os path b).
Proof.
  intros w r w'. unfold write_file. destruct (decide _).
  - intros [= <- <-]. apply extends_refl.
  - intros [= <- <-]. split_and!; [done..| |done].
    intros p Hp. simpl. apply lookup_insert_ne. intros ->. apply Hp. left.
Qed.

Lemma within_os_remove path : within [path] (os_remove os path).
Proof.
  intros w r w'. unfold os_remove.
  destruct (files w !! path); [destruct (decide _)|].
  - intros [= <- <-]. apply extends_refl.
  - intros [= <- <-]. split_and!; [done..| |done].
    intros p Hp. simpl. apply lookup_delete_ne. intros ->. apply Hp. left.
  - intros [= <- <-]. apply extends_refl.
Qed.

Lemma within_os_path_exists ps path : within ps (os_path_exists path).
Proof. intros w r w' [= <- <-]. apply extends_refl. Qed.

Lemma within_parse_xml ps path : within ps (parse_xml os path).
Proof.
  assert (within ps (tree ← etree_parse os path; mret (Some tree))) as Htry.
  { apply within_bind; [apply within_etree_parse|intros; apply within_ret]. }
  assert (∀ e, within ps
            (print ("Error reading " +:+ path +:+ ": " +:+ e);;
             mret (None : option element)))
    as Hexcept.
  { intros e. apply within_bind; [apply within_print|intros; apply within_ret]. }
  intros w r w'. unfold parse_xml, try_except_IOError.
  destruct ((etree_parse os path ≫= _) w) as [[a|[e| | |]|] w1] eqn:Hm;
    try (intros [= <- <-]; exact (Htry _ _ _ Hm)).
  intros Hh. eapply extends_trans;
    [exact (Htry _ _ _ Hm)|exact (Hexcept _ _ _ _ Hh)].
Qed.

Lemma within_save_xml_to_file path s : within [path] (save_xml_to_file os path s).
Proof.
  unfold save_xml_to_file.
  apply within_bind; [apply within_os_path_exists|]. intros present.
  apply within_bind.
  { destruct present; [apply within_print|apply within_ret]. }
  intros _. apply within_bind; [apply within_write_file|].
  intros _. apply within_print.
Qed.

Lemma within_transform_xml ps path t : within ps (transform_xml os path t).
Proof.
  unfold transform_xml. apply within_bind; [apply within_etree_parse|].
  intros sheet. destruct (XSLT os sheet) as [tr|]; [|apply within_raise].
  destruct (tr t); [apply within_ret|apply within_raise].
Qed.

Lemma within_main c :
  within [output_file_path (year_of_volume c) (facs_start c) (facs_stop c);
          transformed_output_path (year_of_volume c) (facs_start c)
            (facs_stop c)]
    (main os c).
Proof.
  unfold main. apply within_bind; [apply within_parse_xml|].
  intros [root|]; [|apply within_exit].
  apply within_bind.
  { eapply within_mono; [|apply within_save_xml_to_file].
    intros ? ->%list_elem_of_singleton. left. }
  intros _. apply within_bind; [apply within_etree_parse|].
  intros orig. apply within_bind; [apply within_transform_xml|].
  intros t. apply within_bind.
  { eapply within_mono; [|apply within_write_file].
    intros ? ->%list_elem_of_singleton. right. left. }
  intros _. apply within_bind; [apply within_print|].
  intros _. eapply within_mono; [|apply within_os_remove].
  intros ? ->%list_elem_of_singleton. left.
Qed.

(** [save_xml_to_file] in one equation. *)
Lemma save_xml_to_file_spec path s w :
  save_xml_to_file os path s w
  = let warned :=
      stdout w ++ (if bool_decide (is_Some (files w !! path))
                   then [warning_line path] else []) in
    if decide (path ∈ unwritable w)
    then (Raised (OSError (strerror os path)),
          World (files w) (unreadable w) (unwritable w) (undeletable w) warned)
    else (Value tt,
          World (<[path := list_byte_of_string s]> (files w)) (unreadable w)
            (unwritable w) (undeletable w) (warned ++ [saved_line path])).
Proof.
  unfold save_xml_to_file, os_path_exists, write_file, with_files.
  unfold mbind, cmd_bind, mret, cmd_ret, print. cbv zeta.
  destruct (bool_decide (is_Some (files w !! path))); simpl;
    destruct (decide (path ∈ unwritable w)); simpl; try done;
    rewrite ?app_nil_r; try done.
  by destruct w.
Qed.

Lemma parse_xml_value path w root w0 :
  parse_xml os path w = (Value (Some root), w0) → w0 = w.
Proof.
  destruct (parse_xml_cases os path w)
    as [(b & t & _ & _ & _ & ->)|[(b & _ & _ & _ & ->)|[_ ->]]];
    by intros [= _ <-].
Qed.

Lemma transform_xml_world path t w r w' :
  transform_xml os path t w = (r, w') → w' = w.
Proof.
  unfold transform_xml, mbind, cmd_bind, mret, cmd_ret, raise.
  destruct (etree_parse os path w) as [[sheet|e|] w1] eqn:He;
    apply etree_parse_world in He as ->; [|by intros [= _ <-]..].
  destruct (XSLT os sheet) as [tr|]; [|by intros [= _ <-]].
  destruct (tr t); by intros [= _ <-].
Qed.

(** The run from the reparse of the intermediate file on. *)
Lemma main_after_save c w root ws :
  parse_xml os (file_path c) w = (Value (Some root), w) →
  save_xml_to_file os
    (output_file_path (year_of_volume c) (facs_start c) (facs_stop c))
    (string_of_list_byte (tostring os "utf-8" (build c root))) w
  = (Value tt, ws) →
  main os c w
  = (original_tree ← etree_parse os
       (output_file_path (year_of_volume c) (facs_start c) (facs_stop c));
     transformed_tree ← transform_xml os (xslt_path c) original_tree;
     write_file os
       (transformed_output_path (year_of_volume c) (facs_start c)
          (facs_stop c))
       (clean_transformed_xml os transformed_tree);;
     print ("The transformed XML has been saved to "
            +:+ transformed_output_path (year_of_volume c) (facs_start c)
                  (facs_stop c));;
     os_remove os
       (output_file_path (year_of_volume c) (facs_start c) (facs_stop c))) ws.
Proof.
  intros Hp Hs. unfold main.
  rewrite (bind_value _ _ _ _ _ Hp). cbv zeta.
  by rewrite (bind_value _ _ _ _ _ Hs).
Qed.

Lemma saved_file path s w ws :
  save_xml_to_file os path s w = (Value tt, ws) →
  files ws = <[path := list_byte_of_string s]> (files w)
  ∧ unreadable ws = unreadable w ∧ unwritable ws = unwritable w
  ∧ undeletable ws = undeletable w.
Proof.
  rewrite save_xml_to_file_spec. cbv zeta.
  destruct (decide _); [done|]. by intros [= <-].
Qed.


End Run.
End MoreRunFacts.

(* ===================================================================== *)
(** * The properties of the script                                        *)
(* ===================================================================== *)

Import Py Etree Trees Splitter Sys Main Examples.
Import TreeFacts BytesFacts NameFacts RunFacts.

(** ** Selection: tables before text blocks *)

(** C1, as the claim reads on the parsed document, fails: in
    [nested_table] a table of page 82 exists in the source tree, but it
    sits inside a text block of page 81 and leaves [root] with it.  When
    the loop reaches page 82 the query finds no table, so the text block of
    page 82 is appended after the page break and no table is. *)
Lemma table_in_source_yet_text_extracted :
  let root := getroot nested_table in
  let d := div (assemble root (range 81 83)) in
  findall (is_table 82) root ≠ []
  ∧ label <$> d
    = [label (pb 81);
       (Parsed 3, tei "ab", [("facs", "#facs_81_1")], None);
       label (pb 82);
       (Parsed 5, tei "ab", [("facs", "#facs_82_1")], None)]%string
  ∧ Exists (is_ab 82) d
  ∧ Forall (λ x, ¬ is_table 82 x) d.
Proof.
  cbv zeta. split_and!.
  - by vm_compute.
  - by vm_compute.
  - apply (bool_decide_unpack _). by vm_compute.
  - apply (bool_decide_unpack _). by vm_compute.
Qed.

(** C1 (amended).  Let [st] be the trees when the page loop reaches page
    [n] of the range.  If at least one table with [facs] equal to
    [#facs_<n>_t1] is still below [root] at that moment, the nodes appended
    after the page break of [n] are exactly those tables, in document
    order, and none of them is a text block of the page; if there is none,
    they are exactly the [ab] nodes still below [root] whose [facs]
    contains [#facs_<n>_].  After them comes the page break of [n + 1] or
    nothing. *)
Theorem table_or_text_when_reached (doc : xml) (a b n : Z) :
  a ≤ n < b →
  let st0 := append_all Facsimile
               (extract_surface_elements (getroot doc) (range a b))
               (Build (getroot doc) [] []) in
  let st := page_loop st0 (range a n) in
  let tables := findall (is_table n) (root st) in
  let texts := findall (is_ab n) (root st) in
  ∃ rest,
    (rest = [] ∨ ∃ rest', rest = label (pb (n + 1)) :: rest')
    ∧ (tables ≠ [] →
       label <$> div (assemble (getroot doc) (range a b))
       = (label <$> div st) ++ label (pb n) :: (label <$> tables) ++ rest
       ∧ Forall (λ e, ¬ is_ab n e) tables)
    ∧ (tables = [] →
       label <$> div (assemble (getroot doc) (range a b))
       = (label <$> div st) ++ label (pb n) :: (label <$> texts) ++ rest).
Proof.
  intros Hn st0 st tables texts.
  destruct (inv_surfaces doc (range a b) (NoDup_seqZ _ _)) as (Hinv0 & _ & _).
  fold st0 in Hinv0.
  destruct (page_loop_spec (range a n) st0 Hinv0) as (Hinv & _).
  fold st in Hinv.
  destruct (page_step_spec st n Hinv) as (Hinv1 & Hdiv1 & _).
  destruct (page_loop_spec (range (n + 1) b) _ Hinv1)
    as (_ & _ & _ & _ & rest & Hdiv & Hrest & _).
  assert (assemble (getroot doc) (range a b)
          = page_loop (page_step st n) (range (n + 1) b)) as ->.
  { unfold assemble. fold st0. rewrite (range_split a n b) by done.
    unfold page_loop. by rewrite foldl_app. }
  exists rest. split; [by apply (first_of_range (n + 1) b)|].
  rewrite Hdiv, Hdiv1, <- (assoc (++)). unfold page_content. fold tables texts.
  split.
  - intros Hne. destruct tables as [|t ts] eqn:Ht; [done|]. split; [done|].
    apply Forall_forall. intros x Hx [Hab _].
    assert (x ∈ tables) as [[Htab _] _]%list_elem_of_filter by by rewrite Ht.
    rewrite Htab in Hab. done.
  - by intros ->.
Qed.

(** The theorem at [three_pages], range [81, 84), page 82. *)
Lemma table_or_text_when_reached_witness :
  81 ≤ 82 < 84
  ∧ let st0 := append_all Facsimile
                 (extract_surface_elements (getroot three_pages) (range 81 84))
                 (Build (getroot three_pages) [] []) in
    let st := page_loop st0 (range 81 82) in
    let tables := findall (is_table 82) (root st) in
    let texts := findall (is_ab 82) (root st) in
    ∃ rest,
      (rest = [] ∨ ∃ rest', rest = label (pb (82 + 1)) :: rest')
      ∧ (tables ≠ [] →
         label <$> div (assemble (getroot three_pages) (range 81 84))
         = (label <$> div st) ++ label (pb 82) :: (label <$> tables) ++ rest
         ∧ Forall (λ e, ¬ is_ab 82 e) tables)
      ∧ (tables = [] →
         label <$> div (assemble (getroot three_pages) (range 81 84))
         = (label <$> div st) ++ label (pb 82) :: (label <$> texts) ++ rest).
Proof.
  split; [lia|]. apply (table_or_text_when_reached three_pages 81 84 82). lia.
Defined.

(** ** Assembly: one page break per page *)

(** C2.  For a range [a, b) with [a ≤ b], the [pb] children of the
    assembled [div] are exactly [b - a] many; the [i]-th is the page break
    of page [a + i], which carries [facs = #facs_<n>], [n = str(n)] and
    [xml:id = img_00<n>].  A page for which the document has neither a
    table nor a text block still has its page break, directly followed by
    the next page break or by nothing. *)
Theorem page_breaks_of_div (doc : xml) (a b : Z) :
  a ≤ b →
  let d := div (assemble (getroot doc) (range a b)) in
  let pbs := filter (λ e, tag e = "pb"%string) d in
  Z.of_nat (length pbs) = b - a
  ∧ (∀ i : nat, Z.of_nat i < b - a → pbs !! i = Some (pb (a + Z.of_nat i)))
  ∧ (∀ n, get (pb n) "facs" = Some ("#facs_" +:+ str n)
          ∧ get (pb n) "n" = Some (str n)
          ∧ get (pb n) xml_id = Some ("img_00" +:+ str n))
  ∧ (∀ n, a ≤ n < b →
       findall (is_table n) (getroot doc) = [] →
       findall (is_ab n) (getroot doc) = [] →
       ∃ before rest,
         d = before ++ pb n :: rest
         ∧ (rest = [] ∨ ∃ rest', rest = pb (n + 1) :: rest')).
Proof.
  intros Hab. cbv zeta. unfold assemble.
  destruct (inv_surfaces doc (range a b) (NoDup_seqZ _ _)) as (Hinv0 & Hdiv0 & Hsub0).
  set (st0 := append_all Facsimile _ _) in *.
  set (d := div (page_loop st0 (range a b))).
  set (pbs := filter _ d).
  assert (leaves_built d) as HK.
  { apply leaves_built_page_loop; [done|]. rewrite Hdiv0. constructor. }
  assert (pbs = pb <$> range a b) as Hpbs.
  { apply page_breaks_of_labels; [done|].
    destruct (page_loop_spec (range a b) st0 Hinv0)
      as (_ & _ & _ & _ & rest & Hdiv & _ & Hpb).
    unfold d. rewrite Hdiv, Hdiv0. done. }
  split_and!.
  - rewrite Hpbs, length_fmap. unfold range. rewrite length_seqZ. lia.
  - intros i Hi. rewrite Hpbs, list_lookup_fmap. unfold range.
    rewrite lookup_seqZ_lt by lia. done.
  - done.
  - intros n Hn Hnotab Hnoab.
    set (st := page_loop st0 (range a n)).
    destruct (page_loop_spec (range a n) st0 Hinv0) as (Hinv & Hsub & _).
    fold st in Hinv, Hsub.
    destruct (page_step_spec st n Hinv) as (Hinv1 & Hdiv1 & _).
    destruct (page_loop_spec (range (n + 1) b) _ Hinv1)
      as (_ & _ & _ & _ & rest & Hdiv & Hrest%(first_of_range (n + 1) b) & _).
    assert (page_content n (root st) = []) as Hnone.
    { assert (label <$> descendants (root st)
              `sublist_of` label <$> descendants (getroot doc)) as Hs by by etrans.
      unfold page_content.
      rewrite (findall_nil_mono (is_table n) (getroot doc) (root st));
        [|apply is_table_label|done|done].
      apply (findall_nil_mono (is_ab n) (getroot doc) (root st));
        [apply is_ab_label|done|done]. }
    assert (d = div (page_loop (page_step st n) (range (n + 1) b))) as Hd.
    { unfold d. rewrite (range_split a n b) by done.
      unfold page_loop. by rewrite foldl_app. }
    rewrite <- Hd, Hdiv1, Hnone in Hdiv. simpl in Hdiv.
    rewrite <- (assoc (++)) in Hdiv. simpl in Hdiv.
    apply fmap_app_inv in Hdiv as (d1 & d2 & Hd1 & Hd2 & Hdd).
    destruct d2 as [|e d2]; [done|]. rewrite fmap_cons in Hd2.
    pose proof (f_equal (λ k, match k with x :: _ => x | [] => label e end) Hd2)
      as He. simpl in He.
    pose proof (f_equal tail Hd2) as Hd2'. simpl in Hd2'.
    rewrite Hdd in HK. apply Forall_app in HK as [_ [HKe HK2]%Forall_cons].
    exists d1, d2. split.
    + rewrite Hdd. f_equal. f_equal. apply pb_of_label; [done|].
      apply HKe. by injection He.
    + destruct Hrest as [-> | [rest' ->]].
      * left. by destruct d2.
      * right. destruct d2 as [|e' d2]; [done|]. exists d2. f_equal.
        rewrite fmap_cons in Hd2'.
        pose proof (f_equal (λ k, match k with x :: _ => x | [] => label e' end) Hd2')
          as He'. simpl in He'.
        apply Forall_cons in HK2 as [HKe' _].
        apply pb_of_label; [done|]. apply HKe'. by injection He'.
Qed.

(** The theorem at [three_pages] and the range [81, 84). *)
Lemma page_breaks_of_div_witness :
  81 ≤ 84
  ∧ let d := div (assemble (getroot three_pages) (range 81 84)) in
    let pbs := filter (λ e, tag e = "pb"%string) d in
    Z.of_nat (length pbs) = 84 - 81
    ∧ (∀ i : nat, Z.of_nat i < 84 - 81 → pbs !! i = Some (pb (81 + Z.of_nat i)))
    ∧ (∀ n, get (pb n) "facs" = Some ("#facs_" +:+ str n)
            ∧ get (pb n) "n" = Some (str n)
            ∧ get (pb n) xml_id = Some ("img_00" +:+ str n))
    ∧ (∀ n, 81 ≤ n < 84 →
         findall (is_table n) (getroot three_pages) = [] →
         findall (is_ab n) (getroot three_pages) = [] →
         ∃ before rest,
           d = before ++ pb n :: rest
           ∧ (rest = [] ∨ ∃ rest', rest = pb (n + 1) :: rest')).
Proof.
  split; [lia|]. apply (page_breaks_of_div three_pages 81 84). lia.
Defined.

(** ** The textual fix-up *)

(** C3.  The fix-up does not keep [b'>\n<lb ']: wherever the sequence
    stands, its line break is removed like any other line break before
    [<lb], because the first replacement puts back what it takes out.  With
    nothing around it the input [b'>\n<lb '] becomes [b'><lb ']. *)
Theorem lb_fixup_joins_lb_after_gt (pre post : bytes) :
  lb_fixup (pre ++ gt_lf_lb_sp ++ post)
  = lb_fixup pre ++ [">"; "<"; "l"; "b"; " "]%byte ++ lb_fixup post.
Proof.
  rewrite !lb_fixup_drop. unfold gt_lf_lb_sp.
  rewrite <- app_comm_cons, drop_app_gt. done.
Qed.

(** C4, as stated, fails on [b'\n\n<lb']: one pass leaves [b'\n<lb'], a
    second pass leaves [b'<lb']. *)
Lemma lb_fixup_not_idempotent :
  lb_fixup lf_lf_lb = lf_lb
  ∧ lb_fixup (lb_fixup lf_lf_lb) = lb
  ∧ lb_fixup (lb_fixup lf_lf_lb) ≠ lb_fixup lf_lf_lb.
Proof. by vm_compute. Qed.

(** C4 (amended).  Applying the fix-up twice gives the same bytes as
    applying it once exactly for the inputs that do not contain two line
    breaks in a row immediately before [<lb] (the bytes [b'\n\n<lb']). *)
Theorem lb_fixup_idempotent_iff s :
  lb_fixup (lb_fixup s) = lb_fixup s ↔ contains_bytes s lf_lf_lb = false.
Proof.
  rewrite !lb_fixup_drop. split.
  - intros Hfix%drop_fixed. destruct (contains_bytes s lf_lf_lb) eqn:Hc; [|done].
    apply drop_keeps_one in Hc. congruence.
  - apply drop_idempotent.
Qed.

(** The theorem at [b'>\n<lb n/>a\n\n']: the fix-up changes these bytes,
    once. *)
Lemma lb_fixup_idempotent_iff_witness :
  let s := [">"; LF; "<"; "l"; "b"; " "; "n"; "/"; ">"; "a"; LF; LF]%byte in
  contains_bytes s lf_lf_lb = false ∧ lb_fixup (lb_fixup s) = lb_fixup s.
Proof.
  cbv zeta. split; [reflexivity|].
  apply (proj2 (lb_fixup_idempotent_iff _)). reflexivity.
Defined.

(** ** File names *)

(** C5.  With more than one page in [range(start, stop)] the
    intermediate path is [output/{year}_{start}-{stop-1}_before.xml] and
    the final path [output/{year}_{start:03d}-{(stop-1):03d}.xml]; with
    exactly one page they are [output/{year}_{start}_before.xml] and
    [output/{year}_{start:03d}.xml].  [:03d] pads with zeros on the left
    and gives three digits for 0 to 999.  The range [81, 89) gives
    [..._81-88_before.xml] and [..._081-088.xml]. *)
Theorem output_paths (year : string) (start stop : Z) :
  ((1 < length (range start stop))%nat →
     output_file_path year start stop
     = "output/" +:+ year +:+ "_" +:+ str start +:+ "-" +:+ str (stop - 1)
       +:+ "_before.xml"
     ∧ transformed_output_path year start stop
       = "output/" +:+ year +:+ "_" +:+ format_03d start +:+ "-"
         +:+ format_03d (stop - 1) +:+ ".xml")
  ∧ (length (range start stop) = 1%nat →
     output_file_path year start stop
     = "output/" +:+ year +:+ "_" +:+ str start +:+ "_before.xml"
     ∧ transformed_output_path year start stop
       = "output/" +:+ year +:+ "_" +:+ format_03d start +:+ ".xml")
  ∧ (∀ n, 0 ≤ n →
       format_03d n
       = String.concat EmptyString
           (replicate (3 - String.length (str n)) "0"%string) +:+ str n)
  ∧ (∀ n, 0 ≤ n ≤ 999 → String.length (format_03d n) = 3%nat)
  ∧ output_file_path year 81 89 = "output/" +:+ year +:+ "_81-88_before.xml"
  ∧ transformed_output_path year 81 89
    = "output/" +:+ year +:+ "_081-088.xml".
Proof.
  rewrite length_range.
  unfold output_file_path, transformed_output_path, range_str,
    formatted_range_str.
  split_and!.
  - intros Hlen. rewrite (proj2 (Z.ltb_lt 1 (stop - start))) by lia.
    by rewrite !append_assoc.
  - intros Hlen. rewrite (proj2 (Z.ltb_ge 1 (stop - start))) by lia. done.
  - apply format_03d_nonneg.
  - apply format_03d_width.
  - done.
  - done.
Qed.

(** The theorem at the ranges [81, 89) and [7, 8) of the volume 1758. *)
Lemma output_paths_witness :
  (1 < length (range 81 89))%nat
  ∧ length (range 7 8) = 1%nat
  ∧ output_file_path "1758" 81 89 = "output/1758_81-88_before.xml"%string
  ∧ transformed_output_path "1758" 81 89 = "output/1758_081-088.xml"%string
  ∧ output_file_path "1758" 7 8 = "output/1758_7_before.xml"%string
  ∧ transformed_output_path "1758" 7 8 = "output/1758_007.xml"%string.
Proof.
  assert (1 < length (range 81 89))%nat as Hmany by (vm_compute; lia).
  assert (length (range 7 8) = 1%nat) as Hone by reflexivity.
  split; [exact Hmany|]. split; [exact Hone|].
  pose proof (proj1 (output_paths "1758" 81 89) Hmany) as [H1 H2].
  pose proof (proj1 (proj2 (output_paths "1758" 7 8)) Hone) as [H3 H4].
  split; [exact H1|]. split; [exact H2|]. split; [exact H3|exact H4].
Defined.

(** ** Deleting the intermediate file *)

(** C6, as stated, fails: in [locked_world] the final file is written, the
    intermediate file cannot be unlinked, and the run ends with the
    [OSError] of [os.remove]; the last line printed is the one about the
    final file, there is no warning. *)
Lemma deletion_failure_ends_the_run :
  (main small_platform script_config locked_world).1
  = Raised (OSError "[Errno] output/1758_81-88_before.xml")
  ∧ files (main small_platform script_config locked_world).2 !! final_path
    = Some document_bytes
  ∧ stdout (main small_platform script_config locked_world).2
    = ["Warning: output/1758_81-88_before.xml already exists. It will be overwritten.";
       "The original XML output has been saved to output/1758_81-88_before.xml";
       "The transformed XML has been saved to output/1758_081-088.xml"]%string.
Proof. by vm_compute. Qed.

(** C6 (amended).  After the final output file has been written, a
    failure to delete the intermediate file is not handled: the exception
    of [os.remove] ends the run.  The failed deletion changes neither the
    files nor the console, so the final output stays as written and no
    warning is printed; the last line printed is the one about the final
    file. *)
Theorem deletion_failure_is_uncaught (os : platform) (c : config)
    (w w0 w1 w2 : world) (root : element) (e : exn) :
  let intermediate :=
    output_file_path (year_of_volume c) (facs_start c) (facs_stop c) in
  let final :=
    transformed_output_path (year_of_volume c) (facs_start c) (facs_stop c) in
  parse_xml os (file_path c) w = (Value (Some root), w0) →
  write_outputs os c (build c root) w0 = (Value tt, w1) →
  os_remove os intermediate w1 = (Raised e, w2) →
  main os c w = (Raised e, w1)
  ∧ w2 = w1
  ∧ (∃ t, files w1 !! final = Some (clean_transformed_xml os t))
  ∧ last (stdout w1)
    = Some ("The transformed XML has been saved to " +:+ final).
Proof.
  intros intermediate final Hp Hw Hr.
  pose proof (os_remove_raised os _ _ _ _ Hr) as ->.
  destruct (write_outputs_value os c _ _ _ Hw) as [Hfile Hout].
  split_and!; [|done..].
  rewrite main_split, (bind_value _ _ _ _ _ Hp).
  by rewrite (bind_value _ _ _ _ _ Hw).
Qed.

(** The theorem at the run of the script in [locked_world]. *)
Lemma deletion_failure_is_uncaught_witness :
  parse_xml small_platform (file_path script_config) locked_world
  = (Value (Some (getroot three_pages)), locked_world)
  ∧ write_outputs small_platform script_config
      (build script_config (getroot three_pages)) locked_world
    = (Value tt, locked_world_written)
  ∧ os_remove small_platform intermediate_path locked_world_written
    = (Raised (OSError "[Errno] output/1758_81-88_before.xml"),
       locked_world_written)
  ∧ main small_platform script_config locked_world
    = (Raised (OSError "[Errno] output/1758_81-88_before.xml"),
       locked_world_written).
Proof.
  assert (parse_xml small_platform (file_path script_config) locked_world
          = (Value (Some (getroot three_pages)), locked_world)) as Hp
    by (vm_compute; reflexivity).
  assert (write_outputs small_platform script_config
            (build script_config (getroot three_pages)) locked_world
          = (Value tt, locked_world_written)) as Hw
    by (vm_compute; reflexivity).
  assert (os_remove small_platform intermediate_path locked_world_written
          = (Raised (OSError "[Errno] output/1758_81-88_before.xml"),
             locked_world_written)) as Hr
    by (vm_compute; reflexivity).
  split; [exact Hp|]. split; [exact Hw|]. split; [exact Hr|].
  exact (proj1 (deletion_failure_is_uncaught small_platform script_config
                  _ _ _ _ _ _ Hp Hw Hr)).
Defined.

(** ** Overwriting *)

(** C7.  The final write goes through [open(..., 'wb')] alone: it prints
    nothing, whether or not the file exists.  In [used_world] both output
    files exist; the run warns about the intermediate file, overwrites the
    final file and prints no warning about it. *)
Theorem final_write_gives_no_warning :
  (∀ os path b w, stdout (write_file os path b w).2 = stdout w)
  ∧ is_Some (files used_world !! final_path)
  ∧ (main small_platform script_config used_world).1 = Value tt
  ∧ files (main small_platform script_config used_world).2 !! final_path
    = Some document_bytes
  ∧ stdout (main small_platform script_config used_world).2
    = ["Warning: output/1758_81-88_before.xml already exists. It will be overwritten.";
       "The original XML output has been saved to output/1758_81-88_before.xml";
       "The transformed XML has been saved to output/1758_081-088.xml"]%string.
Proof.
  split_and!.
  - apply write_file_stdout.
  - vm_compute. eauto.
  - by vm_compute.
  - by vm_compute.
  - by vm_compute.
Qed.

(** ** Reading the input *)

(** C8.  If [etree.parse] raises an [IOError] on the input file,
    [parse_xml] prints [Error reading {file_path}: {e}] and returns
    [None], and the run leaves through [exit()] at once: the files are the
    ones it started with. *)
Theorem input_read_failure_exits (os : platform) (c : config) (w w1 : world)
    (e : string) :
  etree_parse os (file_path c) w = (Raised (OSError e), w1) →
  let w' := World (files w) (unreadable w) (unwritable w) (undeletable w)
              (stdout w ++ ["Error reading " +:+ file_path c +:+ ": " +:+ e]) in
  parse_xml os (file_path c) w = (Value None, w')
  ∧ main os c w = (Exited, w')
  ∧ files w' = files w.
Proof.
  intros He w'. pose proof (etree_parse_world os _ _ _ _ He) as ->.
  assert (parse_xml os (file_path c) w = (Value None, w')) as Hp.
  { unfold parse_xml, try_except_IOError.
    by rewrite (bind_raised _ _ _ _ _ He). }
  split_and!; [done| |done].
  unfold main. by rewrite (bind_value _ _ _ _ _ Hp).
Qed.

(** The theorem at the run of the script where no file exists. *)
Lemma input_read_failure_exits_witness :
  let w := world_of [] [] in
  let w' := World (files w) (unreadable w) (unwritable w) (undeletable w)
              ["Error reading export_files/file.xml: [Errno] export_files/file.xml"%string] in
  etree_parse small_platform "export_files/file.xml" w
  = (Raised (OSError "[Errno] export_files/file.xml"), w)
  ∧ parse_xml small_platform "export_files/file.xml" w = (Value None, w')
  ∧ main small_platform script_config w = (Exited, w')
  ∧ files w' = files w.
Proof.
  cbv zeta.
  assert (etree_parse small_platform (file_path script_config) (world_of [] [])
          = (Raised (OSError "[Errno] export_files/file.xml"), world_of [] []))
    as He by (vm_compute; reflexivity).
  split; [exact He|].
  exact (input_read_failure_exits small_platform script_config _ _ _ He).
Defined.

(** C9.  [parse_xml] returns [None] exactly when [etree.parse] raised an
    [IOError].  For a file that is there and readable but not well-formed,
    the [XMLSyntaxError] passes through [parse_xml] and ends the run. *)
Theorem parse_xml_none_only_on_IOError (os : platform) (path : string)
    (w : world) :
  ((∃ w', parse_xml os path w = (Value None, w'))
   ↔ (∃ e w1, etree_parse os path w = (Raised (OSError e), w1)))
  ∧ (∀ b, files w !! path = Some b → path ∉ unreadable w →
          fromstring os b = None →
          parse_xml os path w = (Raised XMLSyntaxError, w)
          ∧ ∀ c, file_path c = path →
                 main os c w = (Raised XMLSyntaxError, w)).
Proof.
  split.
  - unfold parse_xml, try_except_IOError, mbind, cmd_bind, mret, cmd_ret.
    destruct (etree_parse os path w) as [[t|[e| | |]|] w1]; split;
      try (by intros [? [=]]); try (by intros (? & ? & [=])); eauto.
  - intros b Hb Hr Hf.
    destruct (parse_xml_cases os path w)
      as [(b' & t & ? & ? & ? & _)|[(b' & ? & ? & ? & Hp)|[[?|?] _]]];
      try congruence; try done.
    split; [done|]. intros c <-. unfold main.
    by rewrite (bind_raised _ _ _ _ _ Hp).
Qed.

(** The theorem at the run of the script in [broken_world]. *)
Lemma parse_xml_none_only_on_IOError_witness :
  let b := list_byte_of_string "<TEI>" in
  files broken_world !! "export_files/file.xml"%string = Some b
  ∧ ("export_files/file.xml"%string ∉ unreadable broken_world)
  ∧ fromstring small_platform b = None
  ∧ parse_xml small_platform "export_files/file.xml" broken_world
    = (Raised XMLSyntaxError, broken_world)
  ∧ main small_platform script_config broken_world
    = (Raised XMLSyntaxError, broken_world).
Proof.
  cbv zeta.
  assert (files broken_world !! "export_files/file.xml"%string
          = Some (list_byte_of_string "<TEI>")) as Hb
    by (vm_compute; reflexivity).
  assert ("export_files/file.xml"%string ∉ unreadable broken_world) as Hr
    by apply not_elem_of_empty.
  assert (fromstring small_platform (list_byte_of_string "<TEI>") = None)
    as Hf by reflexivity.
  destruct (proj2 (parse_xml_none_only_on_IOError small_platform
                     "export_files/file.xml" broken_world) _ Hb Hr Hf)
    as [Hp Hm].
  split; [exact Hb|]. split; [exact Hr|]. split; [exact Hf|].
  split; [exact Hp|]. exact (Hm script_config eq_refl).
Defined.

(** ** The empty range *)

(** C10.  For [start = stop] nothing in the assembly raises: both loops
    run zero times, the new document has an empty [facsimile] and a [div]
    without page breaks, and the run goes on to the output stage with it.
    The intermediate file name is [output/{year}_{start}_before.xml], the
    same as for the one-page range [start, start + 1). *)
Theorem empty_range_assembles_empty_document (os : platform) (c : config)
    (w w0 : world) (root : element) :
  facs_start c = facs_stop c →
  parse_xml os (file_path c) w = (Value (Some root), w0) →
  let a := facs_start c in
  let year := year_of_volume c in
  let doc :=
    Element Built (tei "TEI") [] None
      [tei_header year (publisher_text c) (pub_place_text c)
         (title_series_text c) (idno_external_text c);
       SubElement "facsimile" [] None [];
       SubElement "text" [] None
         [SubElement "body" [] None [SubElement "div" [] None []]]] in
  assemble root (range a a) = Build root [] []
  ∧ build c root = doc
  ∧ output_file_path year a a
    = "output/" +:+ year +:+ "_" +:+ str a +:+ "_before.xml"
  ∧ output_file_path year a a = output_file_path year a (a + 1)
  ∧ main os c w
    = (write_outputs os c doc;; os_remove os (output_file_path year a a)) w0.
Proof.
  intros Hempty Hp a year doc.
  assert (range a a = []) as Hr.
  { unfold range. apply seqZ_nil. lia. }
  assert (build c root = doc) as Hb.
  { unfold build. rewrite <- Hempty. fold a. by rewrite Hr. }
  split_and!.
  - by rewrite Hr.
  - done.
  - unfold output_file_path, range_str.
    by rewrite (proj2 (Z.ltb_ge 1 (a - a))) by lia.
  - unfold output_file_path, range_str.
    rewrite (proj2 (Z.ltb_ge 1 (a - a))) by lia.
    by rewrite (proj2 (Z.ltb_ge 1 (a + 1 - a))) by lia.
  - rewrite main_split, (bind_value _ _ _ _ _ Hp), Hb.
    unfold a, year. by rewrite <- Hempty.
Qed.

(** The theorem at the script's configuration with the range [81, 81). *)
Lemma empty_range_assembles_empty_document_witness :
  facs_start empty_config = facs_stop empty_config
  ∧ parse_xml small_platform (file_path empty_config) fresh_world
    = (Value (Some (getroot three_pages)), fresh_world)
  ∧ assemble (getroot three_pages) (range 81 81)
    = Build (getroot three_pages) [] []
  ∧ output_file_path "1758" 81 81 = "output/1758_81_before.xml"%string
  ∧ output_file_path "1758" 81 81 = output_file_path "1758" 81 (81 + 1).
Proof.
  assert (facs_start empty_config = facs_stop empty_config) as Hempty
    by reflexivity.
  assert (parse_xml small_platform (file_path empty_config) fresh_world
          = (Value (Some (getroot three_pages)), fresh_world)) as Hp
    by (vm_compute; reflexivity).
  destruct (empty_range_assembles_empty_document small_platform empty_config
              _ _ _ Hempty Hp) as (Ha & _ & Hn & Hsame & _).
  split; [exact Hempty|]. split; [exact Hp|]. split; [exact Ha|].
  split; [exact Hn|exact Hsame].
Defined.

(* ===================================================================== *)
(** * Further properties of the script                                    *)
(* ===================================================================== *)

Import StringFacts MoreTreeFacts MoreBytesFacts MoreRunFacts.

(** ** The two extraction functions and the three queries *)

(** X1. [extract_surface_elements] and [extract_table_elements] return
    exactly the nodes below the root that the surface query, respectively
    the table query, of some page of the range selects, and on a parsed
    document neither list holds a node twice. *)
Theorem extracted_elements (doc : xml) (a b : Z) :
  let root := getroot doc in
  (∀ x, x ∈ extract_surface_elements root (range a b)
        ↔ x ∈ descendants root ∧ ∃ n, a ≤ n < b ∧ is_surface n x)
  ∧ (∀ x, x ∈ extract_table_elements root (range a b)
          ↔ x ∈ descendants root ∧ ∃ n, a ≤ n < b ∧ is_table n x)
  ∧ NoDup (uid <$> extract_surface_elements root (range a b))
  ∧ NoDup (uid <$> extract_table_elements root (range a b)).
Proof.
  cbv zeta.
  assert (∀ n, n ∈ range a b ↔ a ≤ n < b) as Hr.
  { intros n. unfold range. rewrite elem_of_seqZ. lia. }
  split_and!.
  - intros x. unfold extract_surface_elements, findall.
    rewrite list_elem_of_bind. split.
    + intros (n & [HP Hx]%list_elem_of_filter & Hn%Hr). eauto.
    + intros (Hx & n & Hn%Hr & HP). exists n. split; [|done].
      by apply list_elem_of_filter.
  - intros x. unfold extract_table_elements, findall.
    rewrite list_elem_of_bind. split.
    + intros (n & [HP Hx]%list_elem_of_filter & Hn%Hr). eauto.
    + intros (Hx & n & Hn%Hr & HP). exists n. split; [|done].
      by apply list_elem_of_filter.
  - apply (surfaces_distinct (Build (getroot doc) [] []));
      [apply inv_getroot|apply NoDup_seqZ].
  - apply (tables_distinct (Build (getroot doc) [] []));
      [apply inv_getroot|apply NoDup_seqZ].
Qed.

(** X2. A node answers the surface query of one page only and the table
    query of one page only, since [str] is injective.  A text block whose
    [facs] is [#facs_<m>_<zone>], with no further [#] in the zone, answers
    the [contains] query of page [n] exactly when [n = m]: the underscore
    after the number keeps page 8 from selecting the blocks of page 81. *)
Theorem selectors_match_one_page (e : element) (m n : Z) (zone : string) :
  (get e xml_id = Some ("facs_" +:+ str m) →
   get e xml_id = Some ("facs_" +:+ str n) → n = m)
  ∧ (get e "facs" = Some ("#facs_" +:+ str m +:+ "_t1") →
     get e "facs" = Some ("#facs_" +:+ str n +:+ "_t1") → n = m)
  ∧ (tag e = tei "ab" →
     get e "facs" = Some ("#facs_" +:+ str m +:+ "_" +:+ zone) →
     has_char "#" zone = false →
     (is_ab n e ↔ n = m)).
Proof.
  split_and!.
  - intros -> [= H]. symmetry. by apply str_inj.
  - intros -> [= H]. symmetry. apply str_inj.
    by apply (append_inj_r "_t1").
  - intros Htag Hfacs Hzone. unfold is_ab. rewrite Hfacs.
    cbn [default option_rect from_option]. unfold id.
    assert (contains ("#facs_" +:+ str m +:+ "_" +:+ zone)
              ("#facs_" +:+ str n +:+ "_")
            = String.prefix (str n +:+ "_") (str m +:+ String "_" zone)) as ->.
    { change ("#facs_" +:+ str m +:+ "_" +:+ zone)
        with (String "#" ("facs_" +:+ (str m +:+ String "_" zone))).
      change ("#facs_" +:+ str n +:+ "_")
        with (String "#" ("facs_" +:+ (str n +:+ "_"))).
      cbn [contains]. rewrite contains_absent.
      - rewrite orb_false_r. cbn [String.prefix].
        destruct (ascii_dec "#" "#"); [|done]. apply prefix_append.
      - rewrite !has_char_append. rewrite str_chars by done.
        cbn [has_char]. by rewrite Hzone. }
    split.
    + intros [_ Hp]. apply str_inj.
      by apply (prefix_word "_" zone); [apply str_chars..|].
    + intros ->. split; [done|].
      change (str m +:+ String "_" zone)
        with (str m +:+ ("_" +:+ zone)).
      rewrite prefix_append.
      change ("_" +:+ zone) with (String "_" zone). cbn [String.prefix].
      destruct (ascii_dec "_" "_"); [apply prefix_nil|done].
Qed.

(** The theorem at a text block of page 81: the queries of the pages 8 and
    181 do not select it. *)
Lemma selectors_match_one_page_witness :
  tag block_81 = tei "ab"
  ∧ get block_81 "facs" = Some ("#facs_" +:+ str 81 +:+ "_" +:+ "1")
  ∧ has_char "#" "1" = false
  ∧ is_ab 81 block_81 ∧ ¬ is_ab 8 block_81 ∧ ¬ is_ab 181 block_81.
Proof.
  assert (tag block_81 = tei "ab") as Ht by reflexivity.
  assert (get block_81 "facs" = Some ("#facs_" +:+ str 81 +:+ "_" +:+ "1"))
    as Hf by reflexivity.
  assert (has_char "#" "1" = false) as Hz by reflexivity.
  pose proof (λ n, proj2 (proj2 (selectors_match_one_page block_81 81 n "1"))
                     Ht Hf Hz) as H.
  split; [exact Ht|]. split; [exact Hf|]. split; [exact Hz|].
  split; [exact (proj2 (H 81) eq_refl)|].
  split; intros Hn; apply H in Hn; lia.
Defined.

(** ** The assembled document *)

(** X3. After the script's two loops the [facsimile] element holds, in
    order, the surfaces that [extract_surface_elements] returned for the
    range. *)
Theorem facsimile_holds_the_surfaces (doc : xml) (a b : Z) :
  label <$> facsimile (assemble (getroot doc) (range a b))
  = label <$> extract_surface_elements (getroot doc) (range a b).
Proof.
  unfold assemble.
  destruct (facsimile_loop_spec _ (range a b) (inv_getroot doc) (NoDup_seqZ _ _))
    as (Hinv0 & Hfac & _).
  simpl in Hfac.
  set (st0 := append_all Facsimile _ _) in *.
  destruct (page_loop_spec (range a b) st0 Hinv0) as (_ & _ & _ & -> & _).
  done.
Qed.

(** X4. Every child of [div] is a page break of a page of the range, or a
    node of the parsed document that the table query or the text-block
    query of a page of the range selects.  Nothing else is moved there. *)
Theorem div_holds_only_selected_nodes (doc : xml) (a b : Z) :
  Forall
    (λ lb,
       (∃ n, a ≤ n < b ∧ lb = label (pb n))
       ∨ (∃ x n, x ∈ descendants (getroot doc) ∧ a ≤ n < b ∧ label x = lb
                 ∧ (is_table n x ∨ is_ab n x)))
    (label <$> div (assemble (getroot doc) (range a b))).
Proof.
  unfold assemble.
  destruct (inv_surfaces doc (range a b) (NoDup_seqZ _ _)) as (Hinv0 & Hdiv0 & Hsub0).
  set (st0 := append_all Facsimile _ _) in *.
  assert (Forall (selected_from (getroot doc) (range a b))
            (label <$> div (page_loop st0 (range a b)))) as Hall.
  { apply page_loop_selected; [done|done|done|]. rewrite Hdiv0. constructor. }
  eapply Forall_impl; [exact Hall|].
  assert (∀ n, n ∈ range a b → a ≤ n < b) as Hr.
  { intros n Hn. unfold range in Hn. apply elem_of_seqZ in Hn. lia. }
  intros lb [(n & Hn & ->)|(x & n & Hx & Hn & Hlab & HP)].
  - left. exists n. auto.
  - right. exists x, n. auto.
Qed.

(** X5. The two loops move nodes and create page breaks, and do nothing
    else: the nodes of the source tree, of [facsimile] and of [div] taken
    together are the nodes of the parsed document and one page break per
    page, no parsed node occurs twice, the source root keeps its label and
    what stays below it is a sublist of what was there. *)
Theorem assemble_keeps_every_node (doc : xml) (a b : Z) :
  let st := assemble (getroot doc) (range a b) in
  label <$> nodes (forest st)
  ≡ₚ (label <$> descendants (getroot doc)) ++ (label ∘ pb <$> range a b)
  ∧ NoDup (keys (nodes (forest st)))
  ∧ label (root st) = label (getroot doc)
  ∧ label <$> descendants (root st)
    `sublist_of` label <$> descendants (getroot doc).
Proof.
  cbv zeta. unfold assemble.
  pose proof (inv_getroot doc) as Hinv.
  destruct (facsimile_loop_spec _ (range a b) Hinv (NoDup_seqZ _ _))
    as (Hinv0 & _ & Hsub0 & Hroot0 & _).
  pose proof (facsimile_loop_labels _ (range a b) Hinv (NoDup_seqZ _ _)) as Hl0.
  simpl in Hsub0, Hroot0, Hl0.
  set (st0 := append_all Facsimile _ _) in *.
  destruct (page_loop_spec (range a b) st0 Hinv0) as (Hinv1 & Hsub1 & Hroot1 & _).
  split_and!.
  - rewrite page_loop_labels by done. rewrite Hl0.
    unfold forest. simpl. by rewrite !app_nil_r.
  - apply Hinv1.
  - congruence.
  - by etrans.
Qed.

(** X6. When no page of the range selects a surface, a table or a text
    block, the source tree is left as it is, [facsimile] stays empty and
    [div] holds the page breaks of the range alone. *)
Theorem no_match_leaves_the_source (root : element) (a b : Z) :
  (∀ n, a ≤ n < b →
        findall (is_surface n) root = [] ∧ findall (is_table n) root = []
        ∧ findall (is_ab n) root = []) →
  assemble root (range a b) = Build root [] (pb <$> range a b).
Proof.
  intros Hnone.
  assert (∀ n, n ∈ range a b → a ≤ n < b) as Hr.
  { intros n Hn. unfold range in Hn. apply elem_of_seqZ in Hn. lia. }
  unfold assemble.
  assert (extract_surface_elements root (range a b) = []) as ->.
  { unfold extract_surface_elements.
    induction (range a b) as [|n l IH]; [done|].
    rewrite bind_cons, IH.
    - destruct (Hnone n) as (-> & _); [apply Hr; left|done].
    - intros m Hm. apply Hr. by right. }
  simpl. rewrite page_loop_nothing; [done|].
  intros n Hn. destruct (Hnone n) as (_ & ? & ?); auto.
Qed.

(** The theorem at [three_pages] and the range [10, 12). *)
Lemma no_match_leaves_the_source_witness :
  assemble (getroot three_pages) (range 10 12)
  = Build (getroot three_pages) [] (pb <$> range 10 12).
Proof.
  apply (no_match_leaves_the_source (getroot three_pages) 10 12).
  intros n Hn. assert (n = 10 ∨ n = 11) as [-> | ->] by lia.
  - split; [reflexivity|]. split; reflexivity.
  - split; [reflexivity|]. split; reflexivity.
Defined.

(** X7. The identifier [img_00<n>] is different for different page
    numbers, whatever their size, so the page breaks of [div] carry
    pairwise distinct [xml:id]s. *)
Theorem page_break_ids_are_distinct (doc : xml) (a b : Z) :
  (∀ n m, get (pb n) xml_id = get (pb m) xml_id → n = m)
  ∧ NoDup ((λ e, get e xml_id)
           <$> filter (λ e, tag e = "pb"%string)
                 (div (assemble (getroot doc) (range a b)))).
Proof.
  split; [apply pb_id_inj|].
  rewrite page_breaks_of_assemble. apply NoDup_fmap_2_strong.
  - intros x y (n & -> & _)%list_elem_of_fmap (m & -> & _)%list_elem_of_fmap Heq.
    f_equal. by apply pb_id_inj.
  - apply NoDup_fmap_2; [|apply NoDup_seqZ].
    intros n m Heq. apply pb_id_inj. by rewrite Heq.
Qed.

(** ** The fix-up of the serialised bytes *)

(** X8. The fix-up returns its input unchanged exactly when the input
    holds no line feed directly before [<lb]. *)
Theorem lb_fixup_fixed_points (s : list byte) :
  lb_fixup s = s ↔ contains_bytes s lf_lb = false.
Proof.
  rewrite lb_fixup_drop. split; [apply drop_fixed|apply drop_absent].
Qed.

(** The theorem at [<lb/>] followed by a line feed. *)
Lemma lb_fixup_fixed_points_witness :
  let s := ["<"; "l"; "b"; "/"; ">"; LF]%byte in
  contains_bytes s lf_lb = false ∧ lb_fixup s = s.
Proof.
  cbv zeta. split; [reflexivity|].
  apply (proj2 (lb_fixup_fixed_points _)). reflexivity.
Defined.

(** X9. The fix-up only deletes line feeds: its result is a subsequence
    of its input with the same bytes other than line feeds, in the same
    order.  So [clean_transformed_xml] returns the serialisation of the
    tree with some line feeds left out. *)
Theorem lb_fixup_only_drops_line_breaks (os : platform) (s : list byte)
    (tree : element) :
  lb_fixup s `sublist_of` s
  ∧ filter (λ c, Byte.eqb c LF = false) (lb_fixup s : list byte)
    = filter (λ c, Byte.eqb c LF = false) s
  ∧ clean_transformed_xml os tree `sublist_of` tostring os "UTF-8" tree
  ∧ filter (λ c, Byte.eqb c LF = false) (clean_transformed_xml os tree)
    = filter (λ c, Byte.eqb c LF = false) (tostring os "UTF-8" tree).
Proof.
  unfold clean_transformed_xml. rewrite !lb_fixup_drop.
  split_and!; auto using drop_sublist, drop_keeps_other_bytes.
Qed.

(** ** Saving the intermediate document *)

(** X10. [save_xml_to_file] on a path that can be opened for writing
    returns normally; reading the file back gives the UTF-8 bytes of the
    string, which decode to the string; no other file changes; and the
    output is the warning, when the file existed, followed by the line that
    names the path. *)
Theorem save_then_read_back (os : platform) (path xml_string : string)
    (w : world) :
  path ∉ unwritable w → path ∉ unreadable w →
  let w' := (save_xml_to_file os path xml_string w).2 in
  (save_xml_to_file os path xml_string w).1 = Value tt
  ∧ read_file os path w' = (Value (list_byte_of_string xml_string), w')
  ∧ string_of_list_byte (list_byte_of_string xml_string) = xml_string
  ∧ (∀ p, p ≠ path → files w' !! p = files w !! p)
  ∧ stdout w'
    = stdout w
      ++ (if bool_decide (is_Some (files w !! path))
          then ["Warning: " +:+ path
                +:+ " already exists. It will be overwritten."]
          else [])
      ++ ["The original XML output has been saved to " +:+ path].
Proof.
  intros Hw Hr. cbv zeta. rewrite save_xml_to_file_spec. cbv zeta.
  rewrite decide_False by done. simpl. split_and!.
  - done.
  - unfold read_file. simpl. rewrite lookup_insert_eq.
    by rewrite decide_False.
  - apply string_of_list_byte_of_string.
  - intros p Hp. by apply lookup_insert_ne.
  - by rewrite <- (assoc (++)).
Qed.

(** The theorem at [fresh_world] and the intermediate path. *)
Lemma save_then_read_back_witness :
  (intermediate_path ∉ unwritable fresh_world)
  ∧ (intermediate_path ∉ unreadable fresh_world)
  ∧ (save_xml_to_file small_platform intermediate_path "<TEI/>"
       fresh_world).1 = Value tt
  ∧ read_file small_platform intermediate_path
      (save_xml_to_file small_platform intermediate_path "<TEI/>"
         fresh_world).2
    = (Value (list_byte_of_string "<TEI/>"),
       (save_xml_to_file small_platform intermediate_path "<TEI/>"
          fresh_world).2).
Proof.
  assert (intermediate_path ∉ unwritable fresh_world) as Hw
    by apply not_elem_of_empty.
  assert (intermediate_path ∉ unreadable fresh_world) as Hr
    by apply not_elem_of_empty.
  destruct (save_then_read_back small_platform intermediate_path "<TEI/>"
              fresh_world Hw Hr) as (H1 & H2 & _).
  split; [exact Hw|]. split; [exact Hr|]. split; [exact H1|exact H2].
Defined.

(** X11. [save_xml_to_file] on a path that cannot be opened for writing
    raises the [OSError] of [open] and writes nothing; the warning about
    the existing file has been printed by then, the line that names the
    saved file has not. *)
Theorem save_failure_after_warning (os : platform) (path xml_string : string)
    (w : world) :
  path ∈ unwritable w →
  save_xml_to_file os path xml_string w
  = (Raised (OSError (strerror os path)),
     World (files w) (unreadable w) (unwritable w) (undeletable w)
       (stdout w
        ++ (if bool_decide (is_Some (files w !! path))
            then ["Warning: " +:+ path
                  +:+ " already exists. It will be overwritten."]
            else []))).
Proof.
  intros Hw. rewrite save_xml_to_file_spec. cbv zeta.
  by rewrite decide_True.
Qed.

(** The theorem at [readonly_world], where the intermediate file exists. *)
Lemma save_failure_after_warning_witness :
  intermediate_path ∈ unwritable readonly_world
  ∧ save_xml_to_file small_platform intermediate_path "<TEI/>" readonly_world
    = (Raised (OSError (strerror small_platform intermediate_path)),
       World (files readonly_world) (unreadable readonly_world)
         (unwritable readonly_world) (undeletable readonly_world)
         (stdout readonly_world ++ [warning_line intermediate_path])).
Proof.
  assert (intermediate_path ∈ unwritable readonly_world) as Hw
    by (apply elem_of_list_to_set, list_elem_of_here).
  split; [exact Hw|].
  exact (save_failure_after_warning small_platform intermediate_path "<TEI/>"
           readonly_world Hw).
Defined.

(** ** The names of the two output files *)

(** X12. The intermediate path of a run is never the final path of a run,
    whatever the years and ranges: the one ends in [_before.xml], the other
    in a digit and [.xml].  So writing the final file never overwrites an
    intermediate file and [os.remove] never deletes a final file. *)
Theorem intermediate_is_never_a_final_path (year year' : string)
    (a b a' b' : Z) :
  output_file_path year a b ≠ transformed_output_path year' a' b'.
Proof. apply paths_differ. Qed.

(** X13. For a year and non-empty ranges of page numbers from 0 on, the
    intermediate path determines the range, and so does the final path:
    two different ranges never share an output file. *)
Theorem ranges_are_told_by_the_paths (year : string) (a b a' b' : Z) :
  0 ≤ a < b → 0 ≤ a' < b' →
  (output_file_path year a b = output_file_path year a' b' → a = a' ∧ b = b')
  ∧ (transformed_output_path year a b = transformed_output_path year a' b' →
     a = a' ∧ b = b').
Proof.
  intros Ha Ha'. split.
  - unfold output_file_path, range_str. intros Heq.
    apply (inj (String.append "output/")), (inj (String.append year)),
      (inj (String.append "_")), append_inj_r in Heq.
    apply (range_part_inj str); [apply str_inj| |done..].
    intros n Hn. by apply str_nonneg_chars.
  - unfold transformed_output_path, formatted_range_str. intros Heq.
    apply (inj (String.append "output/")), (inj (String.append year)),
      (inj (String.append "_")), append_inj_r in Heq.
    apply (range_part_inj format_03d); [apply format_03d_inj| |done..].
    intros n Hn. by apply format_03d_nonneg_chars.
Qed.

(** The theorem at the ranges [81, 89) and [81, 88) of the volume 1758. *)
Lemma ranges_are_told_by_the_paths_witness :
  0 ≤ 81 < 89 ∧ 0 ≤ 81 < 88
  ∧ output_file_path "1758" 81 89 ≠ output_file_path "1758" 81 88
  ∧ transformed_output_path "1758" 81 89
    ≠ transformed_output_path "1758" 81 88.
Proof.
  assert (0 ≤ 81 < 89) as H1 by lia.
  assert (0 ≤ 81 < 88) as H2 by lia.
  destruct (ranges_are_told_by_the_paths "1758" 81 89 81 88 H1 H2)
    as [Hi Hf].
  split; [exact H1|]. split; [exact H2|].
  split; intros Heq; [apply Hi in Heq|apply Hf in Heq]; lia.
Defined.

(** ** Whole runs *)

(** X14. However a run of the script ends, it leaves every file other
    than its two output files as it was, changes no permission, and only
    adds lines to the output. *)
Theorem main_touches_only_its_outputs (os : platform) (c : config)
    (w w' : world) (r : result unit) :
  main os c w = (r, w') →
  unreadable w' = unreadable w
  ∧ unwritable w' = unwritable w
  ∧ undeletable w' = undeletable w
  ∧ (∀ p,
       p ≠ output_file_path (year_of_volume c) (facs_start c) (facs_stop c) →
       p ≠ transformed_output_path (year_of_volume c) (facs_start c)
             (facs_stop c) →
       files w' !! p = files w !! p)
  ∧ stdout w `prefix_of` stdout w'.
Proof.
  intros Hm. destruct (within_main os c w r w' Hm) as (? & ? & ? & Hf & ?).
  split_and!; [done..| |done].
  intros p Hp1 Hp2. apply Hf.
  intros [->|[->|[]%elem_of_nil]%elem_of_cons]%elem_of_cons; done.
Qed.

(** The theorem at [used_world]: the export is still there after the
    run. *)
Lemma main_touches_only_its_outputs_witness :
  main small_platform script_config used_world = (Value tt, used_world_after)
  ∧ files used_world_after !! "export_files/file.xml"
    = files used_world !! "export_files/file.xml"
  ∧ stdout used_world `prefix_of` stdout used_world_after.
Proof.
  assert (main small_platform script_config used_world
          = (Value tt, used_world_after)) as Hm by (vm_compute; reflexivity).
  destruct (main_touches_only_its_outputs small_platform script_config
              _ _ _ Hm) as (_ & _ & _ & Hf & Hs).
  split; [exact Hm|]. split; [|exact Hs].
  apply Hf; vm_compute; discriminate.
Defined.



(** X16. When the input parses, the intermediate file is saved and parsed
    again, and [transform_xml] raises, the run ends with that exception in
    the world the save left: the final file is untouched, the last line
    printed names the intermediate file, and nothing removes that file.  A
    stylesheet that is missing or unreadable gives the [OSError] of its
    path. *)
Theorem failed_transform_ends_the_run (os : platform) (c : config)
    (w w0 ws w2 : world) (root original_tree : element) (e : exn) :
  let intermediate :=
    output_file_path (year_of_volume c) (facs_start c) (facs_stop c) in
  let final :=
    transformed_output_path (year_of_volume c) (facs_start c) (facs_stop c) in
  parse_xml os (file_path c) w = (Value (Some root), w0) →
  save_xml_to_file os intermediate
    (string_of_list_byte (tostring os "utf-8" (build c root))) w0
  = (Value tt, ws) →
  etree_parse os intermediate ws = (Value original_tree, ws) →
  transform_xml os (xslt_path c) original_tree ws = (Raised e, w2) →
  main os c w = (Raised e, ws)
  ∧ w2 = ws
  ∧ files ws !! final = files w !! final
  ∧ last (stdout ws)
    = Some ("The original XML output has been saved to " +:+ intermediate)
  ∧ (files w !! xslt_path c = None ∧ xslt_path c ≠ intermediate
     ∨ xslt_path c ∈ unreadable w →
     e = OSError (strerror os (xslt_path c))).
Proof.
  intros intermediate final Hp Hs He Ht.
  pose proof (parse_xml_value os _ _ _ _ Hp) as ->.
  pose proof (transform_xml_world os _ _ _ _ _ Ht) as ->.
  destruct (saved_file os _ _ _ _ Hs) as (Hfiles & Hur & _).
  assert (intermediate ≠ final) as Hne by apply paths_differ.
  split_and!.
  - rewrite (main_after_save os c w root ws Hp Hs). fold intermediate.
    rewrite (bind_value _ _ _ _ _ He). by rewrite (bind_raised _ _ _ _ _ Ht).
  - done.
  - rewrite Hfiles. by apply lookup_insert_ne.
  - revert Hs. rewrite save_xml_to_file_spec. cbv zeta.
    destruct (decide _); [done|]. intros [= <-]. simpl. apply last_snoc.
  - intros Hmissing.
    assert (files ws !! xslt_path c = None ∨ xslt_path c ∈ unreadable ws)
      as Hbad.
    { destruct Hmissing as [[Hnone Hx]|Hx].
      - left. rewrite Hfiles. by rewrite lookup_insert_ne.
      - right. by rewrite Hur. }
    revert Ht. unfold transform_xml.
    destruct (etree_parse_cases os (xslt_path c) ws)
      as [(b & t & Hb & Hr & _)|[(b & Hb & Hr & _)|[_ Hparse]]].
    + destruct Hbad; [congruence|done].
    + destruct Hbad; [congruence|done].
    + rewrite (bind_raised _ _ _ _ _ Hparse). by intros [= <-].
Qed.

(** The theorem at [no_stylesheet_world]. *)
Lemma failed_transform_ends_the_run_witness :
  parse_xml small_platform (file_path script_config) no_stylesheet_world
  = (Value (Some (getroot three_pages)), no_stylesheet_world)
  ∧ save_xml_to_file small_platform intermediate_path
      (string_of_list_byte
         (tostring small_platform "utf-8"
            (build script_config (getroot three_pages))))
      no_stylesheet_world
    = (Value tt, saved_in no_stylesheet_world)
  ∧ etree_parse small_platform intermediate_path (saved_in no_stylesheet_world)
    = (Value (getroot (tei_el "TEI" [] [])), saved_in no_stylesheet_world)
  ∧ transform_xml small_platform (xslt_path script_config)
      (getroot (tei_el "TEI" [] [])) (saved_in no_stylesheet_world)
    = (Raised (OSError "[Errno] xslt/test-stylesheet.xsl"),
       saved_in no_stylesheet_world)
  ∧ main small_platform script_config no_stylesheet_world
    = (Raised (OSError "[Errno] xslt/test-stylesheet.xsl"),
       saved_in no_stylesheet_world).
Proof.
  assert (parse_xml small_platform (file_path script_config)
            no_stylesheet_world
          = (Value (Some (getroot three_pages)), no_stylesheet_world)) as Hp
    by (vm_compute; reflexivity).
  assert (save_xml_to_file small_platform
            (output_file_path (year_of_volume script_config)
               (facs_start script_config) (facs_stop script_config))
            (string_of_list_byte
               (tostring small_platform "utf-8"
                  (build script_config (getroot three_pages))))
            no_stylesheet_world
          = (Value tt, saved_in no_stylesheet_world)) as Hs
    by (vm_compute; reflexivity).
  assert (etree_parse small_platform
            (output_file_path (year_of_volume script_config)
               (facs_start script_config) (facs_stop script_config))
            (saved_in no_stylesheet_world)
          = (Value (getroot (tei_el "TEI" [] [])),
             saved_in no_stylesheet_world)) as He
    by (vm_compute; reflexivity).
  assert (transform_xml small_platform (xslt_path script_config)
            (getroot (tei_el "TEI" [] [])) (saved_in no_stylesheet_world)
          = (Raised (OSError "[Errno] xslt/test-stylesheet.xsl"),
             saved_in no_stylesheet_world)) as Ht
    by (vm_compute; reflexivity).
  split; [exact Hp|]. split; [exact Hs|]. split; [exact He|].
  split; [exact Ht|].
  exact (proj1 (failed_transform_ends_the_run small_platform script_config
                  _ _ _ _ _ _ _ Hp Hs He Ht)).
Defined.

(** X17. Once the intermediate file has been saved, every run that does
    not return normally leaves it on disk with the bytes that were saved:
    only the last statement of the script removes it. *)
Theorem failed_run_keeps_the_intermediate_file (os : platform) (c : config)
    (w w0 ws w' : world) (root : element) (r : result unit) :
  let intermediate :=
    output_file_path (year_of_volume c) (facs_start c) (facs_stop c) in
  let tei_bytes := tostring os "utf-8" (build c root) in
  parse_xml os (file_path c) w = (Value (Some root), w0) →
  save_xml_to_file os intermediate (string_of_list_byte tei_bytes) w0
  = (Value tt, ws) →
  main os c w = (r, w') →
  r ≠ Value tt →
  files w' !! intermediate = Some tei_bytes.
Proof.
  intros intermediate tei_bytes Hp Hs Hm Hr.
  pose proof (parse_xml_value os _ _ _ _ Hp) as ->.
  rewrite (main_after_save os c w root ws Hp Hs) in Hm.
  destruct (saved_file os _ _ _ _ Hs) as (Hfiles & _).
  assert (files ws !! intermediate = Some tei_bytes) as Hinter.
  { rewrite Hfiles, lookup_insert_eq.
    by rewrite list_byte_of_string_of_list_byte. }
  assert (∀ (x : result unit) v, (x, v) = (r, w') → x ≠ Value tt →
            files v !! intermediate = Some tei_bytes →
            files w' !! intermediate = Some tei_bytes) as Hend.
  { intros x v Heq _ Hv. by replace w' with v by exact (f_equal snd Heq). }
  assert (∀ v, (Value tt, v) = (r, w') → False) as Hok.
  { intros v Heq. apply Hr. exact (eq_sym (f_equal fst Heq)). }
  assert (intermediate
          ≠ transformed_output_path (year_of_volume c) (facs_start c)
              (facs_stop c)) as Hne by apply paths_differ.
  revert Hm. unfold mbind, cmd_bind, mret, cmd_ret, print.
  destruct (etree_parse os _ ws) as [[orig|e|] w1] eqn:He;
    apply etree_parse_world in He as ->;
    [|intros Hm; by eapply Hend..].
  destruct (transform_xml os _ _ ws) as [[t|e|] w1] eqn:Ht;
    apply transform_xml_world in Ht as ->;
    [|intros Hm; by eapply Hend..].
  unfold write_file. destruct (decide _); [intros Hm; by eapply Hend|].
  unfold os_remove. cbn [files with_files undeletable].
  fold intermediate. rewrite lookup_insert_ne by done. rewrite Hinter.
  destruct (decide _); intros Hm.
  - eapply Hend; [exact Hm|done|]. simpl. by rewrite lookup_insert_ne.
  - by apply Hok in Hm.
Qed.

(** The theorem at [locked_world], where the run ends in [os.remove]. *)
Lemma failed_run_keeps_the_intermediate_file_witness :
  parse_xml small_platform (file_path script_config) locked_world
  = (Value (Some (getroot three_pages)), locked_world)
  ∧ save_xml_to_file small_platform intermediate_path
      (string_of_list_byte
         (tostring small_platform "utf-8"
            (build script_config (getroot three_pages))))
      locked_world
    = (Value tt, saved_in locked_world)
  ∧ main small_platform script_config locked_world
    = (Raised (OSError "[Errno] output/1758_81-88_before.xml"),
       locked_world_written)
  ∧ files locked_world_written !! intermediate_path = Some document_bytes.
Proof.
  assert (parse_xml small_platform (file_path script_config) locked_world
          = (Value (Some (getroot three_pages)), locked_world)) as Hp
    by (vm_compute; reflexivity).
  assert (save_xml_to_file small_platform
            (output_file_path (year_of_volume script_config)
               (facs_start script_config) (facs_stop script_config))
            (string_of_list_byte
               (tostring small_platform "utf-8"
                  (build script_config (getroot three_pages))))
            locked_world
          = (Value tt, saved_in locked_world)) as Hs
    by (vm_compute; reflexivity).
  assert (main small_platform script_config locked_world
          = (Raised (OSError "[Errno] output/1758_81-88_before.xml"),
             locked_world_written)) as Hm
    by (vm_compute; reflexivity).
  split; [exact Hp|]. split; [exact Hs|]. split; [exact Hm|].
  apply (failed_run_keeps_the_intermediate_file small_platform script_config
           _ _ _ _ _ _ Hp Hs Hm).
  discriminate.
Defined.
